(** * yetAnotherTerminalFileManager: the preview handler of [main.py]

    A shallow embedding of the [FileBrowser] application: the MIME
    dispatch of [on_directory_tree_file_selected], the three view handlers
    and the half-block rasterizer [img_to_string], followed by theorems
    about them.

    Conventions.
    - A Python [str] is a list of Unicode code points ([pystr]); literals
      of the source are written [u "..."] when they are ASCII.
    - A call that may raise returns a [result]; handler code that also
      touches the user interface or the file system runs in the monad [M],
      which records every such call in a trace.
    - Library calls (python-magic, PIL, rich, the file system) are fields
      of a [World]. *)

From Stdlib Require Import ZArith Lia List Ascii String DecimalString.
From Stdlib Require Import Floats.SpecFloat.
From stdpp Require Import base decidable option list gmap strings.

Local Open Scope Z_scope.

(** ** Python strings *)

Module PyStr.

Definition codepoint := N.
Definition pystr := list codepoint.

(** An ASCII literal of the source as a [pystr]. *)
Fixpoint u (s : string) : pystr :=
  match s with
  | EmptyString => []
  | String c s' => N_of_ascii c :: u s'
  end.

Definition BALLOT_BOX : codepoint := 9744%N.          (* U+2610 ☐ *)
Definition BALLOT_BOX_WITH_X : codepoint := 9746%N.   (* U+2612 ☒ *)
Definition UPPER_HALF_BLOCK : codepoint := 9600%N.    (* U+2580 ▀ *)
Definition LF : codepoint := 10%N.                    (* "\n" *)
Definition DOT : codepoint := 46%N.                   (* "." *)
Definition SLASH : codepoint := 47%N.                 (* "/" *)

(** [s.split(sep)] for a separator of one character: the pieces between
    the occurrences of [sep]; never the empty list. *)
Fixpoint split (sep : codepoint) (s : pystr) : list pystr :=
  match s with
  | [] => [[]]
  | c :: s' =>
      if decide (c = sep) then [] :: split sep s'
      else match split sep s' with
           | [] => [[c]]
           | p :: ps => (c :: p) :: ps
           end
  end.

(** [s.startswith(old)], returning what follows the prefix. *)
Fixpoint strip_prefix (old s : pystr) : option pystr :=
  match old, s with
  | [], _ => Some s
  | _ :: _, [] => None
  | a :: old', c :: s' => if decide (a = c) then strip_prefix old' s' else None
  end.

(** The scan of [s.replace(old, new)] for a non-empty [old]: leftmost
    occurrences first, the scan resuming behind each replaced one. *)
Fixpoint replace_scan (fuel : nat) (old new s : pystr) : pystr :=
  match fuel with
  | O => s
  | S fuel' =>
      match s with
      | [] => []
      | c :: s' =>
          match strip_prefix old s with
          | Some rest => new ++ replace_scan fuel' old new rest
          | None => c :: replace_scan fuel' old new s'
          end
      end
  end.

(** [s.replace(old, new)]; with an empty [old], Python puts [new] before
    every character and at the end. *)
Definition replace (old new s : pystr) : pystr :=
  match old with
  | [] => new ++ concat (map (λ c, c :: new) s)
  | _ :: _ => replace_scan (length s) old new s
  end.

(** [s.rfind(c) + 1]: the index behind the last [c], 0 without one. *)
Fixpoint after_last (c : codepoint) (s : pystr) : pystr :=
  match s with
  | [] => []
  | a :: s' =>
      if bool_decide (c ∈ s') then after_last c s'
      else if decide (a = c) then s' else a :: s'
  end.

(** [os.path.basename] of posixpath: [p[p.rfind('/') + 1:]]. *)
Definition basename (p : pystr) : pystr := after_last SLASH p.

(** [str(n)] for an [int]. *)
Definition str_of_int (n : Z) : pystr :=
  u (NilEmpty.string_of_int (Z.to_int n)).

End PyStr.
Import PyStr.
Arguments u : simpl never.
Arguments replace : simpl never.

(** ** Exceptions and fallible calls *)

Inductive Exc : Type :=
| IndexError
| ValueError
| TypeError
| ZeroDivisionError
| OverflowError
| FileNotFoundError
| PermissionError
| UnicodeDecodeError
| OtherException (tag : nat).

Inductive result (A : Type) : Type :=
| Ok (a : A)
| Raise (e : Exc).
Arguments Ok {A} a.
Arguments Raise {A} e.

#[global] Instance result_ret : MRet result := λ A a, Ok a.
#[global] Instance result_bind : MBind result := λ A B f r,
  match r with
  | Ok a => f a
  | Raise e => Raise e
  end.

(** A [for] loop over [xs] threading the loop-carried value; an exception
    leaves the loop. *)
Fixpoint for_each {A S : Type} (xs : list A) (body : A → S → result S) (s : S)
  : result S :=
  match xs with
  | [] => Ok s
  | x :: xs' => s' ← body x s; for_each xs' body s'
  end.

(** [range(start, stop, step)] for a positive [step]. *)
Definition range (start stop step : Z) : list Z :=
  map (λ i : nat, start + step * Z.of_nat i)
      (seq 0 (Z.to_nat ((stop - start + step - 1) `div` step))).

(** ** Python floats: IEEE 754 binary64 *)

Module PyFloat.

Definition prec : Z := 53.
Definition emax : Z := 1024.
Definition float := spec_float.

(** [float(n)]: round to nearest even; too large an [int] raises. *)
Definition of_int (n : Z) : result float :=
  match binary_normalize prec emax n 0 false with
  | S754_infinity _ => Raise OverflowError
  | f => Ok f
  end.

Definition is_zero (f : float) : bool :=
  match f with S754_zero _ => true | _ => false end.

(** [a / b] on floats. *)
Definition truediv (a b : float) : result float :=
  if is_zero b then Raise ZeroDivisionError else Ok (SFdiv prec emax a b).

(** [a / b] on two [int]s. Both operands of the rasterizer are image
    dimensions, far below 2^53, where the conversion is exact and the
    quotient is the correctly rounded one that Python returns. *)
Definition int_truediv (a b : Z) : result float :=
  if decide (b = 0) then Raise ZeroDivisionError
  else fa ← of_int a; fb ← of_int b; Ok (SFdiv prec emax fa fb).

(** [a / b] for an [int] [a] and a float [b]. *)
Definition int_float_truediv (a : Z) (b : float) : result float :=
  fa ← of_int a; truediv fa b.

(** [int(f)]: truncation toward zero. *)
Definition to_int (f : float) : result Z :=
  match f with
  | S754_zero _ => Ok 0
  | S754_infinity _ => Raise OverflowError
  | S754_nan => Raise ValueError
  | S754_finite s m e =>
      let a := match e with
               | Zneg k => Z.shiftr (Zpos m) (Zpos k)
               | _ => Z.shiftl (Zpos m) e
               end in
      Ok (if s then - a else a)
  end.

End PyFloat.

(** ** PIL images *)

(** What [getpixel] returns: a tuple of bands, or a plain number for the
    single-band modes. *)
Inductive PixelValue : Type :=
| PxTuple (bands : list Z)
| PxNumber.

Record Image : Type := {
  size : Z * Z;                     (* (width, height) *)
  pixel : Z → Z → PixelValue;       (* defined inside the image *)
}.

(** [img.getpixel((x, y))]: a negative coordinate counts from the far
    edge; outside the image is an [IndexError]. *)
Definition getpixel (img : Image) (xy : Z * Z) : result PixelValue :=
  let '(xsize, ysize) := size img in
  let '(x, y) := xy in
  let x := if decide (x < 0) then xsize + x else x in
  let y := if decide (y < 0) then ysize + y else y in
  if decide (x < 0 ∨ xsize ≤ x ∨ y < 0 ∨ ysize ≤ y) then Raise IndexError
  else Ok (pixel img x y).

(** The target of [r, g, b = value]. *)
Definition unpack3 (v : PixelValue) : result (Z * Z * Z) :=
  match v with
  | PxTuple [r; g; b] => Ok (r, g, b)
  | PxTuple _ => Raise ValueError
  | PxNumber => Raise TypeError
  end.

(** ** The rasterizer *)

Section Rasterizer.

(** [img.resize(size)] of PIL. *)
Variable resize : Image → Z * Z → result Image.

(** f"[rgb({r1},{g1},{b1}) on rgb({r2},{g2},{b2})]▀[/]" *)
Definition cell_unicode (r1 g1 b1 r2 g2 b2 : Z) : pystr :=
  u "[rgb(" ++ str_of_int r1 ++ u "," ++ str_of_int g1 ++ u "," ++ str_of_int b1
    ++ u ") on rgb(" ++ str_of_int r2 ++ u "," ++ str_of_int g2 ++ u ","
    ++ str_of_int b2 ++ u ")]" ++ [UPPER_HALF_BLOCK] ++ u "[/]".

(** f"[on rgb({r},{g},{b})] [/]" *)
Definition cell_plain (r g b : Z) : pystr :=
  u "[on rgb(" ++ str_of_int r ++ u "," ++ str_of_int g ++ u ","
    ++ str_of_int b ++ u ")] [/]".

(** Lines 51-53: the height of the resized image. *)
Definition scaled_height (img_width img_height dest_width : Z) : result Z :=
  scale ← PyFloat.int_truediv img_width dest_width;
  q ← PyFloat.int_float_truediv img_height scale;
  dest_height ← PyFloat.to_int q;
  Ok (if decide (dest_height `mod` 2 ≠ 0) then dest_height + 1 else dest_height).

(** The body of the inner loop, for column [x] of row pair [y]. *)
Definition emit_cell (img : Image) (unicode : bool) (y x : Z) (output : pystr)
  : result pystr :=
  if unicode then
    p1 ← getpixel img (x, y);
    '(r1, g1, b1) ← unpack3 p1;
    p2 ← getpixel img (x, y + 1);
    '(r2, g2, b2) ← unpack3 p2;
    Ok (output ++ cell_unicode r1 g1 b1 r2 g2 b2)
  else
    p ← getpixel img (x, y);
    '(r, g, b) ← unpack3 p;
    Ok (output ++ cell_plain r g b).

Definition img_to_string (img : Image) (dest_width : Z) (unicode : bool)
  : result pystr :=
  let '(img_width, img_height) := size img in
  dest_height ← scaled_height img_width img_height dest_width;
  img ← resize img (dest_width, dest_height);
  let output := [] in
  for_each (range 0 dest_height 2)
    (λ y output,
       output ← for_each (range 0 dest_width 1) (emit_cell img unicode y) output;
       Ok (output ++ [LF]))
    output.

End Rasterizer.

(** A nearest-neighbour resampler, one of the resamplers PIL offers and the
    one used in the examples below. It refuses an empty target, as PIL
    does. *)
Definition resize_nearest (img : Image) (sz : Z * Z) : result Image :=
  let '(w, h) := sz in
  let '(w0, h0) := size img in
  if decide (w < 1 ∨ h < 1) then Raise ValueError
  else Ok {| size := (w, h);
             pixel := λ x y, pixel img (x * w0 `div` w) (y * h0 `div` h) |}.

Definition solid (w h : Z) (r g b : Z) : Image :=
  {| size := (w, h); pixel := λ _ _, PxTuple [r; g; b] |}.

(** ** The preview surface and the handler monad *)

(** The two widgets the handlers touch: [Static#code] (the source's
    [preview]) and its parent [VerticalScroll#code-view] ([viewbox], also
    reached by [query_one("#code-view")]). *)
Inductive Widget : Type := Preview | Viewbox.

(** What [Static.update] is given. *)
Inductive Renderable : Type :=
| RStr (s : pystr)               (* a plain str *)
| RSyntax (highlighted : pystr)  (* a rich Syntax object *)
| RMarkdown (markup : pystr)     (* a rich Markdown object built from [markup] *)
| RTraceback (e : Exc).          (* Traceback() of the exception being handled *)

(** What [self.sub_title] is assigned. *)
Inductive Subtitle : Type :=
| SubStr (s : pystr)
| SubReactive (default : pystr)  (* Reactive("...") *)
| SubErrorText.                  (* Text.assemble(("ERROR ", "bold red"), <warning emoji>) *)

(** [DirectoryTree.FileSelected]. *)
Record FileSelected : Type := { path : pystr }.

Inductive Event : Type :=
| EvStop                                        (* event.stop() *)
| EvMagicFromFile (p : pystr)                   (* magic_from_file(p, mime=True) *)
| EvOpenRead (p : pystr) (mode : string) (n : option Z)  (* open(p, mode).read(n) *)
| EvMagicFromBuffer (buf : list Byte.byte)      (* magic_from_buffer(buf, mime=True) *)
| EvSyntaxFromPath (p : pystr)                  (* Syntax.from_path(p, ...) *)
| EvMarkdown (markup : pystr)                   (* Markdown(markup=..., ...) *)
| EvImageOpen (p : pystr)                       (* Image.open(p) *)
| EvAddClass (w : Widget) (cls : string)
| EvRemoveClass (w : Widget) (cls : string)
| EvUpdate (w : Widget) (r : Renderable)
| EvScrollHome (w : Widget) (animate : bool)
| EvSubTitle (s : Subtitle).

(** A run of handler code: the calls made, in order, and how it ended. An
    outcome [Raise e] is an exception leaving the code. *)
Record M (A : Type) : Type := Run { trace : list Event; outcome : result A }.
Arguments Run {A} trace outcome.
Arguments trace {A} m.
Arguments outcome {A} m.

#[global] Instance M_ret : MRet M := λ A a, Run [] (Ok a).
#[global] Instance M_bind : MBind M := λ A B f m,
  match outcome m with
  | Ok a => Run (trace m ++ trace (f a)) (outcome (f a))
  | Raise e => Run (trace m) (Raise e)
  end.

Definition emit (ev : Event) : M unit := Run [ev] (Ok ()).
Definition call {A} (ev : Event) (r : result A) : M A := Run [ev] r.
Definition lift {A} (r : result A) : M A := Run [] r.
Arguments emit : simpl never.
Arguments call : simpl never.
Arguments lift : simpl never.

(** [try: body / except Exception: handler / else: orelse]. *)
Definition try_except_else {A B} (body : M A) (handler : Exc → M B)
    (orelse : A → M B) : M B :=
  match outcome body with
  | Ok a => Run (trace body ++ trace (orelse a)) (outcome (orelse a))
  | Raise e => Run (trace body ++ trace (handler e)) (outcome (handler e))
  end.

(** [l[i]]. *)
Definition getitem {A} (l : list A) (i : nat) : result A :=
  match l !! i with
  | Some a => Ok a
  | None => Raise IndexError
  end.

(** The single preview state of a running application. *)
Record PreviewState : Type := {
  content : Renderable;
  preview_classes : gset string;
  viewbox_classes : gset string;
  sub_title : Subtitle;
  scroll_y : Z;
}.

Definition initial_state : PreviewState :=
  {| content := RStr []; preview_classes := ∅; viewbox_classes := ∅;
     sub_title := SubStr []; scroll_y := 0 |}.

Definition apply_event (st : PreviewState) (ev : Event) : PreviewState :=
  match ev with
  | EvAddClass Preview c =>
      {| content := content st; preview_classes := preview_classes st ∪ {[c]};
         viewbox_classes := viewbox_classes st; sub_title := sub_title st;
         scroll_y := scroll_y st |}
  | EvAddClass Viewbox c =>
      {| content := content st; preview_classes := preview_classes st;
         viewbox_classes := viewbox_classes st ∪ {[c]}; sub_title := sub_title st;
         scroll_y := scroll_y st |}
  | EvRemoveClass Preview c =>
      {| content := content st; preview_classes := preview_classes st ∖ {[c]};
         viewbox_classes := viewbox_classes st; sub_title := sub_title st;
         scroll_y := scroll_y st |}
  | EvRemoveClass Viewbox c =>
      {| content := content st; preview_classes := preview_classes st;
         viewbox_classes := viewbox_classes st ∖ {[c]}; sub_title := sub_title st;
         scroll_y := scroll_y st |}
  | EvUpdate Preview r =>
      {| content := r; preview_classes := preview_classes st;
         viewbox_classes := viewbox_classes st; sub_title := sub_title st;
         scroll_y := scroll_y st |}
  | EvScrollHome Viewbox _ =>
      {| content := content st; preview_classes := preview_classes st;
         viewbox_classes := viewbox_classes st; sub_title := sub_title st;
         scroll_y := 0 |}
  | EvSubTitle s =>
      {| content := content st; preview_classes := preview_classes st;
         viewbox_classes := viewbox_classes st; sub_title := s;
         scroll_y := scroll_y st |}
  | _ => st
  end.

(** The state after a run that started in [st]. *)
Definition after {A} (st : PreviewState) (m : M A) : PreviewState :=
  foldl apply_event st (trace m).

(** ** The libraries and the file system *)

Record World : Type := {
  magic_from_file : pystr → result pystr;
  magic_from_buffer : list Byte.byte → result pystr;
  file_bytes : pystr → result (list Byte.byte);   (* open(p, "rb") and its bytes *)
  file_text : pystr → result pystr;               (* open(p, 'r') and f.read() *)
  Syntax_from_path : pystr → result pystr;
  Markdown_raises : pystr → option Exc;
  Image_open : pystr → result Image;
  Image_resize : Image → Z * Z → result Image;
}.

(** ** The handlers of [FileBrowser] *)

Section Handlers.

Variable w : World.

Definition on_exception (view : Widget) (e : Exc) : M unit :=
  emit (EvUpdate view (RTraceback e));;
  let text := SubErrorText in
  emit (EvSubTitle text).

Definition Markdown (markup : pystr) : result Renderable :=
  match Markdown_raises w markup with
  | Some e => Raise e
  | None => Ok (RMarkdown markup)
  end.

Definition on_markdown_view (event : FileSelected) : M unit :=
  let preview := Preview in
  let viewbox := Viewbox in
  try_except_else
    (text ← call (EvOpenRead (path event) "r" None) (file_text w (path event));
     let markup :=
       replace (u "-[x]") (u "- " ++ [BALLOT_BOX_WITH_X])
         (replace (u "-[ ]") (u "- " ++ [BALLOT_BOX]) text) in
     call (EvMarkdown markup) (Markdown markup))
    (λ e, on_exception preview e)
    (λ markdown,
       emit (EvAddClass viewbox "code-view");;
       emit (EvRemoveClass viewbox "image-view");;
       emit (EvRemoveClass preview "image");;
       emit (EvUpdate preview markdown);;
       emit (EvScrollHome Viewbox false);;
       emit (EvSubTitle (SubStr (path event)))).

Definition on_code_view (event : FileSelected) : M unit :=
  let preview := Preview in
  let viewbox := Viewbox in
  try_except_else
    (call (EvSyntaxFromPath (path event)) (Syntax_from_path w (path event)))
    (λ e, on_exception preview e)
    (λ syntax,
       emit (EvAddClass viewbox "code-view");;
       emit (EvRemoveClass viewbox "image-view");;
       emit (EvRemoveClass preview "image");;
       emit (EvUpdate preview (RSyntax syntax));;
       emit (EvScrollHome Viewbox false);;
       emit (EvSubTitle (SubStr (path event)))).

Definition on_image_view (event : FileSelected) : M unit :=
  let preview := Preview in
  let viewbox := Viewbox in
  try_except_else
    (image ← call (EvImageOpen (path event)) (Image_open w (path event));
     lift (img_to_string (Image_resize w) image 80 true))
    (λ e, on_exception preview e)
    (λ image_view,
       emit (EvRemoveClass viewbox "code-view");;
       emit (EvAddClass viewbox "image-view");;
       emit (EvAddClass preview "image");;
       emit (EvUpdate preview (RStr image_view));;
       emit (EvSubTitle (SubStr (path event)))).

Definition on_t_plain_ext (file_ext : pystr) (event : FileSelected) : M unit :=
  if decide (file_ext = u "md") then on_markdown_view event
  else on_code_view event.

Definition on_text_plain (mime : pystr) (event : FileSelected) : M unit :=
  let preview := Preview in
  if decide (mime = u "text/plain") then
    let file_ext := split DOT (basename (path event)) in
    if decide (1 < length file_ext)%nat then
      ext ← lift (getitem file_ext 1);
      on_t_plain_ext ext event
    else
      buf ← call (EvOpenRead (path event) "rb" (Some 2048))
              (b ← file_bytes w (path event); Ok (take 2048 b));
      call (EvMagicFromBuffer buf) (magic_from_buffer w buf);;
      emit (EvUpdate preview (RStr mime));;
      emit (EvSubTitle (SubReactive (u "Mime Type")))
  else on_code_view event.

Definition on_text (mime : pystr) (event : FileSelected) : M unit :=
  if decide (mime = u "text/plain") then on_text_plain mime event
  else on_code_view event.

Definition on_directory_tree_file_selected (event : FileSelected) : M unit :=
  emit EvStop;;
  let preview := Preview in
  mime ← call (EvMagicFromFile (path event)) (magic_from_file w (path event));
  tlt ← lift (getitem (split SLASH mime) 0);
  if decide (tlt = u "application") then on_code_view event
  else if decide (tlt = u "text") then on_text mime event
  else if decide (tlt = u "image") then on_image_view event
  else
    emit (EvUpdate preview (RStr mime));;
    emit (EvSubTitle (SubReactive (u "Mime Type"))).

End Handlers.

(** ** Render modes: the decision table of the specification *)

Inductive RenderMode : Type := CodeView | MarkdownView | ImageView | RawMimeLabel.

(** The top-level type of a MIME string "type/subtype". *)
Fixpoint top_level_type (mime : pystr) : pystr :=
  match mime with
  | [] => []
  | c :: mime' => if decide (c = SLASH) then [] else c :: top_level_type mime'
  end.

(** The selector as the specification words it (its section 4.2), rows in
    their order of precedence. *)
Definition select (mime : pystr) (ext : option pystr) : RenderMode :=
  if decide (top_level_type mime = u "application") then CodeView
  else if decide (top_level_type mime = u "text") then
    if decide (mime = u "text/plain") then
      match ext with
      | Some e => if decide (e = u "md") then MarkdownView else CodeView
      | None => RawMimeLabel
      end
    else CodeView
  else if decide (top_level_type mime = u "image") then ImageView
  else RawMimeLabel.

(** The extension the handlers dispatch on (lines 106-108): the second
    piece of the base name split at its dots, when there is one. *)
Definition extension_of (event : FileSelected) : option pystr :=
  let file_ext := split DOT (basename (path event)) in
  if decide (1 < length file_ext)%nat then file_ext !! 1%nat else None.

Section Modes.

Variable w : World.

(** The buffer sniff that precedes the label of an extensionless
    text/plain file (line 110). *)
Definition confirm_by_buffer (event : FileSelected) : M pystr :=
  buf ← call (EvOpenRead (path event) "rb" (Some 2048))
          (b ← file_bytes w (path event); Ok (take 2048 b));
  call (EvMagicFromBuffer buf) (magic_from_buffer w buf).

(** The raw label: the MIME string as content, the generic marker as
    subtitle. *)
Definition show_label (mime : pystr) : M unit :=
  emit (EvUpdate Preview (RStr mime));;
  emit (EvSubTitle (SubReactive (u "Mime Type"))).

(** What the handler does once a mode is chosen. *)
Definition render_as (mime : pystr) (event : FileSelected) (mode : RenderMode)
  : M unit :=
  match mode with
  | CodeView => on_code_view w event
  | MarkdownView => on_markdown_view w event
  | ImageView => on_image_view w event
  | RawMimeLabel =>
      if decide (mime = u "text/plain") then
        confirm_by_buffer event;; show_label mime
      else show_label mime
  end.

(** The handler up to and including the path sniff, continued by [k]. *)
Definition sniff_then (event : FileSelected) (k : pystr → M unit) : M unit :=
  emit EvStop;;
  mime ← call (EvMagicFromFile (path event)) (magic_from_file w (path event));
  k mime.

End Modes.

(** Events by kind. *)
Definition is_buffer_sniff (ev : Event) : bool :=
  match ev with EvMagicFromBuffer _ => true | _ => false end.
Definition is_scroll (ev : Event) : bool :=
  match ev with EvScrollHome _ _ => true | _ => false end.
Definition is_class_update (ev : Event) : bool :=
  match ev with EvAddClass _ _ | EvRemoveClass _ _ => true | _ => false end.

(** The error state of the pane: a traceback as content, the error marker
    as subtitle. *)
Definition in_error_state (st : PreviewState) : Prop :=
  (∃ e, content st = RTraceback e) ∧ sub_title st = SubErrorText.

(** ** What the view handlers emit *)

Section Runs.

Variable event : FileSelected.

Definition code_view_events (syntax : pystr) : list Event :=
  [EvAddClass Viewbox "code-view"; EvRemoveClass Viewbox "image-view";
   EvRemoveClass Preview "image"; EvUpdate Preview (RSyntax syntax);
   EvScrollHome Viewbox false; EvSubTitle (SubStr (path event))].

Definition markdown_view_events (markup : pystr) : list Event :=
  [EvAddClass Viewbox "code-view"; EvRemoveClass Viewbox "image-view";
   EvRemoveClass Preview "image"; EvUpdate Preview (RMarkdown markup);
   EvScrollHome Viewbox false; EvSubTitle (SubStr (path event))].

Definition image_view_events (image_view : pystr) : list Event :=
  [EvRemoveClass Viewbox "code-view"; EvAddClass Viewbox "image-view";
   EvAddClass Preview "image"; EvUpdate Preview (RStr image_view);
   EvSubTitle (SubStr (path event))].

Definition error_events (e : Exc) : list Event :=
  [EvUpdate Preview (RTraceback e); EvSubTitle SubErrorText].

End Runs.

(** The markup [on_markdown_view] builds from the text of the file. *)
Definition checkbox_markup (text : pystr) : pystr :=
  replace (u "-[x]") (u "- " ++ [BALLOT_BOX_WITH_X])
    (replace (u "-[ ]") (u "- " ++ [BALLOT_BOX]) text).

(** The specification's substitution, read left to right: every
    occurrence of -[ ] becomes - ☐, every occurrence of -[x] becomes - ☒,
    and every other character is kept. *)
Inductive checkbox_subst : pystr → pystr → Prop :=
| subst_end : checkbox_subst [] []
| subst_unchecked s t :
    checkbox_subst s t →
    checkbox_subst (u "-[ ]" ++ s) (u "- " ++ [BALLOT_BOX] ++ t)
| subst_checked s t :
    checkbox_subst s t →
    checkbox_subst (u "-[x]" ++ s) (u "- " ++ [BALLOT_BOX_WITH_X] ++ t)
| subst_keep c s t :
    strip_prefix (u "-[ ]") (c :: s) = None →
    strip_prefix (u "-[x]") (c :: s) = None →
    checkbox_subst s t →
    checkbox_subst (c :: s) (c :: t).

Definition HYPHEN : codepoint := 45%N.

(** ** The output of the rasterizer *)

(** The cell the unicode rasterizer writes for column [x] of the row pair
    starting at row [y]. *)
Definition cell_at (img : Image) (y x : Z) : pystr :=
  match pixel img x y, pixel img x (y + 1) with
  | PxTuple [r1; g1; b1], PxTuple [r2; g2; b2] => cell_unicode r1 g1 b1 r2 g2 b2
  | _, _ => []
  end.

(** Every pixel of the image is a triple. *)
Definition is_rgb (img : Image) : Prop :=
  ∀ x y, 0 ≤ x < (size img).1 → 0 ≤ y < (size img).2 →
         ∃ r g b, pixel img x y = PxTuple [r; g; b].

Definition is_cell (c : pystr) : Prop :=
  ∃ r1 g1 b1 r2 g2 b2, c = cell_unicode r1 g1 b1 r2 g2 b2.

(** The text of the rows: each row is its cells followed by a line break. *)
Definition render_rows (rows : list (list pystr)) : pystr :=
  concat (map (λ row, concat row ++ [LF]) rows).

(** [s.splitlines()] for line breaks "\n": the pieces that [split]
    gives, without the empty piece behind a final line break. *)
Definition splitlines (s : pystr) : list pystr :=
  let pieces := split LF s in
  match last pieces with
  | Some [] => removelast pieces
  | _ => pieces
  end.

(** A mantissa of 53 binary digits. *)
Definition is53 (m : Z) : Prop := 4503599627370496 ≤ m < 9007199254740992.

(** The adjusted height with the quotient rounded up (the ceiling of the
    specification's sections 4.3 and 8), then bumped to the next even
    number. *)
Definition ceil_adjusted_height (img_width img_height dest_width : Z) : Z :=
  let h := (img_height * dest_width + img_width - 1) `div` img_width in
  if decide (h `mod` 2 ≠ 0) then h + 1 else h.

(** Cells in a line: each cell has one half-block glyph. *)
Definition cell_count (line : pystr) : nat :=
  length (List.filter (λ c, bool_decide (c = UPPER_HALF_BLOCK)) line).

(** ** A small file system for the examples *)

Module Demo.

Definition photo : Image := solid 160 5 10 20 30.

Definition files : list (string * (result pystr * result pystr)) :=
  (* path, path sniff, text *)
  [ ("/d/photo.png", (Ok (u "image/png"), Raise UnicodeDecodeError));
    ("/d/song.mp3", (Ok (u "audio/mpeg"), Raise UnicodeDecodeError));
    ("/d/README", (Ok (u "text/plain"), Ok (u "hello")));
    ("/d/notes.md", (Ok (u "text/plain"), Ok (u "-[ ] a" ++ [LF] ++ u "-[x] b")));
    ("/d/notes.md.txt", (Ok (u "text/plain"), Ok (u "-[ ] c")));
    ("/d/archive.tar.gz", (Ok (u "text/plain"), Ok (u "tar")));
    ("/d/.bashrc", (Ok (u "text/plain"), Ok (u "alias l=ls")));
    ("/d/page.html", (Ok (u "text/html"), Ok (u "<p>")));
    ("/d/tool", (Ok (u "application/octet-stream"), Raise UnicodeDecodeError)) ].

Fixpoint lookup_file (p : pystr) (fs : list (string * (result pystr * result pystr)))
  : option (result pystr * result pystr) :=
  match fs with
  | [] => None
  | (name, entry) :: fs' => if decide (u name = p) then Some entry else lookup_file p fs'
  end.

Definition bytes_of (s : pystr) : list Byte.byte :=
  omap (λ c, Byte.of_N c) s.

(** A world with the files above; any other path does not exist. The
    buffer sniff answers [guess]. *)
Definition world (guess : pystr) : World :=
  {| magic_from_file p :=
       match lookup_file p files with Some (m, _) => m | None => Raise FileNotFoundError end;
     magic_from_buffer _ := Ok guess;
     file_bytes p :=
       match lookup_file p files with
       | Some (_, Ok t) => Ok (bytes_of t)
       | Some (_, Raise _) => Ok []
       | None => Raise FileNotFoundError
       end;
     file_text p :=
       match lookup_file p files with Some (_, t) => t | None => Raise FileNotFoundError end;
     Syntax_from_path p :=
       match lookup_file p files with Some (_, t) => t | None => Raise FileNotFoundError end;
     Markdown_raises _ := None;
     Image_open p :=
       if decide (p = u "/d/photo.png") then Ok photo else Raise (OtherException 0);
     Image_resize := resize_nearest |}.

Definition select_file (name : string) : FileSelected := {| path := u name |}.

End Demo.

(** ** Transitions of the preview pane *)

(** The events that change the preview state. *)
Definition is_ui (ev : Event) : bool :=
  match ev with
  | EvAddClass _ _ | EvRemoveClass _ _ | EvUpdate _ _ | EvScrollHome _ _
  | EvSubTitle _ => true
  | _ => false
  end.
Definition is_update (ev : Event) : bool :=
  match ev with EvUpdate _ _ => true | _ => false end.
Definition is_subtitle (ev : Event) : bool :=
  match ev with EvSubTitle _ => true | _ => false end.

Definition ui_events (tr : list Event) : list Event := List.filter is_ui tr.

(** What a raw-label branch emits (lines 92-93 and 111-112). *)
Definition label_events (mime : pystr) : list Event :=
  [EvUpdate Preview (RStr mime); EvSubTitle (SubReactive (u "Mime Type"))].

(** The five ways in which a selection changes the pane. *)
Inductive transition (event : FileSelected) : list Event → Prop :=
| to_code syntax : transition event (code_view_events event syntax)
| to_markdown markup : transition event (markdown_view_events event markup)
| to_image image_view : transition event (image_view_events event image_view)
| to_label mime : transition event (label_events mime)
| to_error e : transition event (error_events e).

(** The states a session can be in: the initial one, and those reached by
    selecting files, the file system being free to change in between. *)
Inductive reachable : PreviewState → Prop :=
| reach_initial : reachable initial_state
| reach_select st w event :
    reachable st →
    reachable (after st (on_directory_tree_file_selected w event)).

(** The three style configurations: none yet, text layout, image layout. *)
Inductive StyleConfig : Type := NoStyle | TextStyle | ImageStyle.

Definition has_style (c : StyleConfig) (st : PreviewState) : Prop :=
  match c with
  | NoStyle => viewbox_classes st = ∅ ∧ preview_classes st = ∅
  | TextStyle => viewbox_classes st = {["code-view"]} ∧ preview_classes st = ∅
  | ImageStyle =>
      viewbox_classes st = {["image-view"]} ∧ preview_classes st = {["image"]}
  end.

Definition shows_text (r : Renderable) : bool :=
  match r with RSyntax _ | RMarkdown _ => true | _ => false end.

(** No check-box pattern of the markdown view starts anywhere in [t]. *)
Definition box_free (t : pystr) : Prop :=
  ∀ i : nat, strip_prefix (u "-[ ]") (drop i t) = None ∧
             strip_prefix (u "-[x]") (drop i t) = None.

(** ** The rasterizer without unicode *)

(** The cell the plain rasterizer writes for column [x] of the row pair
    starting at row [y]: the pixel of row [y] alone. *)
Definition plain_cell_at (img : Image) (y x : Z) : pystr :=
  match pixel img x y with
  | PxTuple [r; g; b] => cell_plain r g b
  | _ => []
  end.

(** The pixels of the even rows are triples. *)
Definition is_rgb_on_even_rows (img : Image) : Prop :=
  ∀ x y, 0 ≤ x < (size img).1 → 0 ≤ y < (size img).2 → y `mod` 2 = 0 →
         ∃ r g b, pixel img x y = PxTuple [r; g; b].

(** An image whose pixels have four bands, as PIL gives for RGBA. *)
Definition translucent (w h : Z) : Image :=
  {| size := (w, h); pixel := λ _ _, PxTuple [10; 20; 30; 255] |}.

(** An image whose odd rows hold plain numbers. *)
Definition striped (w h : Z) : Image :=
  {| size := (w, h);
     pixel := λ _ y, if decide (y `mod` 2 = 0) then PxTuple [1; 2; 3] else PxNumber |}.

(** A resampler that keeps the pixel function and only sets the size. *)
Definition resize_crop (img : Image) (sz : Z * Z) : result Image :=
  Ok {| size := sz; pixel := pixel img |}.

(** ** The widget tree of [compose] *)

Inductive WidgetKind : Type :=
| Header
| Footer
| Container
| DirectoryTree (root : pystr)
| VerticalScroll
| Static (expand : bool).

(** A widget with its id and the widgets composed inside it. *)
#[local] Unset Elimination Schemes.
Inductive Node : Type :=
| Mounted (kind : WidgetKind) (id : option string) (children : list Node).
#[local] Set Elimination Schemes.

Definition node_kind (n : Node) : WidgetKind := let 'Mounted k _ _ := n in k.
Definition node_id (n : Node) : option string := let 'Mounted _ i _ := n in i.
Definition node_children (n : Node) : list Node := let 'Mounted _ _ cs := n in cs.

(** [compose], lines 35-43. [cwd] stands for [os.path.abspath("./")]. *)
Definition compose (argv : list pystr) (cwd : pystr) : result (list Node) :=
  path ← (if decide (length argv < 2)%nat then Ok cwd else getitem argv 1);
  Ok [ Mounted Header None [];
       Mounted Container None
         [ Mounted (DirectoryTree path) (Some "tree-view") [];
           Mounted VerticalScroll (Some "code-view")
             [ Mounted (Static true) (Some "code") [] ] ];
       Mounted Footer None [] ].

(** A widget and everything below it, in document order. *)
Fixpoint walk (n : Node) : list Node :=
  let 'Mounted _ _ cs := n in
  n :: (fix walk_all (ns : list Node) : list Node :=
          match ns with
          | [] => []
          | c :: ns' => walk c ++ walk_all ns'
          end) cs.

Definition walk_all (ns : list Node) : list Node := flat_map walk ns.

(** The matches of a query "#id" below the application. *)
Definition query_id (id : string) (dom : list Node) : list Node :=
  List.filter (λ n, bool_decide (node_id n = Some id)) (walk_all dom).

Definition is_directory_tree (n : Node) : bool :=
  match node_kind n with DirectoryTree _ => true | _ => false end.

(** The matches of the query [DirectoryTree] of [on_mount]. *)
Definition query_directory_tree (dom : list Node) : list Node :=
  List.filter is_directory_tree (walk_all dom).

(** The widgets that have a child with the given id: [child.parent]. *)
Definition parents_of (id : string) (dom : list Node) : list Node :=
  List.filter
    (λ n, bool_decide (Exists (λ c, node_id c = Some id) (node_children n)))
    (walk_all dom).

(** * Theorems *)

(** ** Examples of the embedded operations *)

Example split_ex : split DOT (u "archive.tar.gz") = [u "archive"; u "tar"; u "gz"].
Proof. reflexivity. Qed.
Example split_ex2 : split DOT (u ".bashrc") = [u ""; u "bashrc"].
Proof. reflexivity. Qed.
Example replace_ex : replace (u "-[ ]") (u "- o") (u "a-[ ]-[ ]b-[x]") = u "a- o- ob-[x]".
Proof. reflexivity. Qed.
Example basename_ex : basename (u "/home/me/x.d/notes.md") = u "notes.md".
Proof. reflexivity. Qed.
Example basename_ex2 : basename (u "/home/me/") = u "".
Proof. reflexivity. Qed.
Example str_of_int_ex : str_of_int 255 = u "255" /\ str_of_int 0 = u "0" /\ str_of_int (-3) = u "-3".
Proof. repeat split; reflexivity. Qed.

Example float_ex1 : (s ← PyFloat.int_truediv 160 80; q ← PyFloat.int_float_truediv 5 s; PyFloat.to_int q) = Ok 2.
Proof. vm_compute. reflexivity. Qed.
Example float_ex2 : (s ← PyFloat.int_truediv 0 80; q ← PyFloat.int_float_truediv 5 s; PyFloat.to_int q) = Raise ZeroDivisionError.
Proof. vm_compute. reflexivity. Qed.

(** The quotient is the binary64 one: 33 / (176 / 80) is just below 15 and
    truncates to 14, where the exact quotient is 15. *)
Example scaled_height_ex :
  scaled_height 176 33 80 = Ok 14 ∧ scaled_height 160 5 80 = Ok 2
  ∧ scaled_height 80 3 80 = Ok 4 ∧ scaled_height 0 3 80 = Raise ZeroDivisionError.
Proof. vm_compute. repeat split; reflexivity. Qed.

Example raster_ex :
  img_to_string resize_nearest (solid 4 4 1 2 3) 2 true
  = Ok (u "[rgb(1,2,3) on rgb(1,2,3)]" ++ [UPPER_HALF_BLOCK] ++ u "[/]"
        ++ u "[rgb(1,2,3) on rgb(1,2,3)]" ++ [UPPER_HALF_BLOCK] ++ u "[/]" ++ [LF]).
Proof. vm_compute. reflexivity. Qed.

(** ** The handler monad *)

Lemma M_eta {A} (m : M A) : Run (trace m) (outcome m) = m.
Proof. by destruct m. Qed.

Lemma bind_lift_ok {A B} (a : A) (f : A → M B) : lift (Ok a) ≫= f = f a.
Proof. unfold lift, mbind, M_bind; simpl. apply M_eta. Qed.

Lemma bind_call_ok {A B} ev (a : A) (f : A → M B) :
  call ev (Ok a) ≫= f = Run (ev :: trace (f a)) (outcome (f a)).
Proof. reflexivity. Qed.

Lemma bind_raise {A B} tr e (f : A → M B) : Run tr (Raise e) ≫= f = Run tr (Raise e).
Proof. reflexivity. Qed.

Lemma bind_ext {A B} (m : M A) (f g : A → M B) :
  (∀ a, f a = g a) → m ≫= f = m ≫= g.
Proof.
  intros Hfg. unfold mbind, M_bind. destruct (outcome m); [by rewrite Hfg | done].
Qed.

Lemma bind_assoc {A B C} (m : M A) (f : A → M B) (g : B → M C) :
  (m ≫= f) ≫= g = m ≫= (λ a, f a ≫= g).
Proof.
  unfold mbind, M_bind. destruct m as [tr [a|e]]; simpl; [| done].
  destruct (f a) as [tr' [b|e]]; simpl; [| done].
  by rewrite app_assoc.
Qed.

(** ** Splitting at a separator *)

Lemma split_cons sep s : ∃ p ps, split sep s = p :: ps.
Proof.
  destruct s as [|c s]; simpl; [by eauto |].
  destruct (decide (c = sep)); [by eauto |].
  destruct (split sep s); eauto.
Qed.

Lemma split_head sep s : split sep s !! 0%nat = Some (
  (fix before (s : pystr) : pystr :=
     match s with
     | [] => []
     | c :: s' => if decide (c = sep) then [] else c :: before s'
     end) s).
Proof.
  induction s as [|c s IH]; simpl; [done |].
  destruct (decide (c = sep)); [done |].
  destruct (split sep s) as [|p ps]; simpl in *; [done |].
  by injection IH as ->.
Qed.

Lemma split_top_level mime : getitem (split SLASH mime) 0 = Ok (top_level_type mime).
Proof.
  unfold getitem. rewrite split_head. f_equal.
Qed.

(** Without the separator there is one piece. *)
Lemma split_no_sep sep s : sep ∉ s → split sep s = [s].
Proof.
  induction s as [|c s IH]; simpl; [done |].
  intros Hn. rewrite not_elem_of_cons in Hn. destruct Hn as [Hc Hs].
  destruct (decide (c = sep)); [congruence |]. by rewrite IH.
Qed.

(** The first piece ends at the first separator. *)
Lemma split_app_sep sep s t :
  sep ∉ s → split sep (s ++ sep :: t) = s :: split sep t.
Proof.
  induction s as [|c s IH]; simpl; intros Hn.
  - by destruct (decide (sep = sep)).
  - rewrite not_elem_of_cons in Hn. destruct Hn as [Hc Hs].
    destruct (decide (c = sep)); [congruence |]. by rewrite IH.
Qed.

(** ** C1: the dispatch follows the decision table *)

Lemma on_text_plain_selects w mime event :
  mime = u "text/plain" →
  on_text_plain w mime event = render_as w mime event (select mime (extension_of event)).
Proof.
  intros ->. unfold on_text_plain, select, extension_of.
  destruct (decide (top_level_type (u "text/plain") = u "application")) as [Hc|_];
    [by vm_compute in Hc |].
  destruct (decide (top_level_type (u "text/plain") = u "text")) as [_|Hc];
    [| by exfalso; apply Hc].
  destruct (decide (u "text/plain" = u "text/plain")) as [_|?]; [| done].
  destruct (decide (1 < length (split DOT (basename (path event))))%nat) as [Hlen|Hlen].
  - destruct (split DOT (basename (path event))) as [|p0 [|p1 ps]] eqn:Hs;
      simpl in Hlen; [lia | lia |].
    unfold getitem. change ((p0 :: p1 :: ps) !! 1%nat) with (Some p1).
    cbv beta iota. rewrite bind_lift_ok. unfold on_t_plain_ext.
    by destruct (decide (p1 = u "md")).
  - unfold render_as, confirm_by_buffer, show_label.
    destruct (decide (u "text/plain" = u "text/plain")) as [_|?]; [| done].
    by rewrite bind_assoc.
Qed.

(** The dispatch on the sniffed MIME string (lines 82-93). *)
Lemma dispatch_selects w event mime :
  (tlt ← lift (getitem (split SLASH mime) 0);
   if decide (tlt = u "application") then on_code_view w event
   else if decide (tlt = u "text") then on_text w mime event
   else if decide (tlt = u "image") then on_image_view w event
   else
     emit (EvUpdate Preview (RStr mime));;
     emit (EvSubTitle (SubReactive (u "Mime Type"))))
  = render_as w mime event (select mime (extension_of event)).
Proof.
  rewrite split_top_level, bind_lift_ok. unfold select.
  destruct (decide (top_level_type mime = u "application")); [done |].
  destruct (decide (top_level_type mime = u "text")) as [Ht|Ht].
  - unfold on_text.
    destruct (decide (mime = u "text/plain")) as [Hm|Hm]; [| done].
    rewrite on_text_plain_selects by done. unfold select.
    destruct (decide (top_level_type mime = u "application")); [done |].
    destruct (decide (top_level_type mime = u "text")); [| done].
    by destruct (decide (mime = u "text/plain")).
  - destruct (decide (top_level_type mime = u "image")); [done |].
    simpl. destruct (decide (mime = u "text/plain")) as [->|Hm]; [| done].
    by exfalso; apply Ht.
Qed.

Lemma dispatch_after_sniff w event mime :
  magic_from_file w (path event) = Ok mime →
  on_directory_tree_file_selected w event
  = Run (EvStop :: EvMagicFromFile (path event)
           :: trace (render_as w mime event (select mime (extension_of event))))
        (outcome (render_as w mime event (select mime (extension_of event)))).
Proof.
  intros Hm. unfold on_directory_tree_file_selected. rewrite Hm.
  cbv zeta. rewrite bind_call_ok, dispatch_selects. reflexivity.
Qed.

(** C1. For every selected file, what [on_directory_tree_file_selected]
    does after the path sniff is what the decision table selects for the
    sniffed MIME string and the extension of the path: CodeView for
    application/*, for text/plain with an extension other than md and for
    every other text/*; MarkdownView for text/plain with extension md;
    RawMimeLabel for text/plain without extension and for every other
    top-level type; ImageView for image/*. *)
Theorem dispatch_follows_decision_table (w : World) (event : FileSelected) :
  on_directory_tree_file_selected w event
  = sniff_then w event
      (λ mime, render_as w mime event (select mime (extension_of event))).
Proof.
  unfold on_directory_tree_file_selected, sniff_then.
  apply bind_ext; intros _. apply bind_ext; intros mime.
  cbv zeta. apply dispatch_selects.
Qed.

(** ** The view handlers, case by case *)

Section Leaves.

Variable w : World.
Variable event : FileSelected.

Lemma on_code_view_ok syntax :
  Syntax_from_path w (path event) = Ok syntax →
  on_code_view w event
  = Run (EvSyntaxFromPath (path event) :: code_view_events event syntax) (Ok ()).
Proof. intros H. unfold on_code_view, try_except_else, call; simpl. by rewrite H. Qed.

Lemma on_code_view_raise e :
  Syntax_from_path w (path event) = Raise e →
  on_code_view w event
  = Run (EvSyntaxFromPath (path event) :: error_events e) (Ok ()).
Proof. intros H. unfold on_code_view, try_except_else, call; simpl. by rewrite H. Qed.

Lemma on_markdown_view_ok text :
  file_text w (path event) = Ok text →
  Markdown_raises w (checkbox_markup text) = None →
  on_markdown_view w event
  = Run (EvOpenRead (path event) "r" None :: EvMarkdown (checkbox_markup text)
           :: markdown_view_events event (checkbox_markup text)) (Ok ()).
Proof.
  intros H1 H2. unfold on_markdown_view, Markdown, checkbox_markup in *.
  rewrite H1, bind_call_ok. cbv zeta. by rewrite H2.
Qed.

Lemma on_markdown_view_unreadable e :
  file_text w (path event) = Raise e →
  on_markdown_view w event
  = Run (EvOpenRead (path event) "r" None :: error_events e) (Ok ()).
Proof.
  intros H1. unfold on_markdown_view. by rewrite H1.
Qed.

Lemma on_markdown_view_unrenderable text e :
  file_text w (path event) = Ok text →
  Markdown_raises w (checkbox_markup text) = Some e →
  on_markdown_view w event
  = Run (EvOpenRead (path event) "r" None :: EvMarkdown (checkbox_markup text)
           :: error_events e) (Ok ()).
Proof.
  intros H1 H2. unfold on_markdown_view, Markdown, checkbox_markup in *.
  rewrite H1, bind_call_ok. cbv zeta. by rewrite H2.
Qed.

Lemma on_image_view_ok image image_view :
  Image_open w (path event) = Ok image →
  img_to_string (Image_resize w) image 80 true = Ok image_view →
  on_image_view w event
  = Run (EvImageOpen (path event) :: image_view_events event image_view) (Ok ()).
Proof.
  intros H1 H2. unfold on_image_view, try_except_else, call, lift.
  unfold mbind, M_bind; simpl. rewrite H1; simpl. by rewrite H2.
Qed.

Lemma on_image_view_undecodable e :
  Image_open w (path event) = Raise e →
  on_image_view w event
  = Run (EvImageOpen (path event) :: error_events e) (Ok ()).
Proof.
  intros H1. unfold on_image_view, try_except_else, call, lift.
  unfold mbind, M_bind; simpl. by rewrite H1.
Qed.

Lemma on_image_view_unrasterizable image e :
  Image_open w (path event) = Ok image →
  img_to_string (Image_resize w) image 80 true = Raise e →
  on_image_view w event
  = Run (EvImageOpen (path event) :: error_events e) (Ok ()).
Proof.
  intros H1 H2. unfold on_image_view, try_except_else, call, lift.
  unfold mbind, M_bind; simpl. rewrite H1; simpl. by rewrite H2.
Qed.

Lemma sniff_then_ok mime k :
  magic_from_file w (path event) = Ok mime →
  sniff_then w event k
  = Run (EvStop :: EvMagicFromFile (path event) :: trace (k mime)) (outcome (k mime)).
Proof.
  intros H. unfold sniff_then, call, emit. unfold mbind, M_bind; simpl. by rewrite H.
Qed.

Lemma sniff_then_raise e k :
  magic_from_file w (path event) = Raise e →
  sniff_then w event k = Run [EvStop; EvMagicFromFile (path event)] (Raise e).
Proof.
  intros H. unfold sniff_then, call, emit. unfold mbind, M_bind; simpl. by rewrite H.
Qed.

End Leaves.

(** ** C7 and C10: which piece of the base name is the extension *)

Lemma extension_of_dotted event stem rest :
  basename (path event) = stem ++ DOT :: rest →
  DOT ∉ stem →
  extension_of event = split DOT rest !! 0%nat.
Proof.
  intros Hb Hs. unfold extension_of. rewrite Hb, split_app_sep by done.
  destruct (split_cons DOT rest) as (p & ps & ->). simpl.
  destruct (decide (1 < S (S (length ps)))%nat); [done | lia].
Qed.

Lemma extension_of_none event :
  DOT ∉ basename (path event) → extension_of event = None.
Proof.
  intros Hb. unfold extension_of. rewrite split_no_sep by done. simpl.
  destruct (decide (1 < 1)%nat); [lia | done].
Qed.

Lemma first_piece ext more :
  DOT ∉ ext → (more = [] ∨ ∃ more', more = DOT :: more') →
  split DOT (ext ++ more) !! 0%nat = Some ext.
Proof.
  intros He [-> | [more' ->]].
  - by rewrite app_nil_r, split_no_sep.
  - by rewrite split_app_sep.
Qed.

Lemma select_text_plain ext :
  select (u "text/plain") ext
  = match ext with
    | Some e => if decide (e = u "md") then MarkdownView else CodeView
    | None => RawMimeLabel
    end.
Proof.
  unfold select.
  destruct (decide (top_level_type (u "text/plain") = u "application")) as [Hc|_];
    [by vm_compute in Hc |].
  destruct (decide (top_level_type (u "text/plain") = u "text")) as [_|Hc];
    [| by exfalso; apply Hc].
  by destruct (decide (u "text/plain" = u "text/plain")).
Qed.

Lemma text_plain_with_extension w event ext :
  magic_from_file w (path event) = Ok (u "text/plain") →
  extension_of event = Some ext →
  on_directory_tree_file_selected w event
  = sniff_then w event
      (λ _, if decide (ext = u "md") then on_markdown_view w event
            else on_code_view w event).
Proof.
  intros Hm He.
  rewrite (dispatch_after_sniff _ _ _ Hm), (sniff_then_ok _ _ _ _ Hm), He,
    select_text_plain.
  by destruct (decide (ext = u "md")).
Qed.

(** C7. The extension used for the dispatch is the piece of the base name
    between its first dot and the next one (or the end): for a base name
    stem.ext or stem.ext.more with no dot in stem and ext, the extension is
    ext, and a text/plain file is rendered as markdown when ext is md and
    as code otherwise. So archive.tar.gz has extension tar and is shown as
    code, notes.md.txt has extension md and is shown as markdown. *)
Theorem extension_is_segment_after_first_dot
    (w : World) (event : FileSelected) (stem ext more : pystr) :
  basename (path event) = stem ++ DOT :: ext ++ more →
  DOT ∉ stem →
  DOT ∉ ext →
  (more = [] ∨ ∃ more', more = DOT :: more') →
  extension_of event = Some ext ∧
  (magic_from_file w (path event) = Ok (u "text/plain") →
   on_directory_tree_file_selected w event
   = sniff_then w event
       (λ _, if decide (ext = u "md") then on_markdown_view w event
             else on_code_view w event)).
Proof.
  intros Hb Hs He Hm.
  assert (extension_of event = Some ext) as Hext.
  { rewrite (extension_of_dotted _ _ _ Hb Hs). by apply first_piece. }
  split; [done |]. intros Hmime. by apply text_plain_with_extension.
Qed.

Lemma extension_is_segment_after_first_dot_witness :
  let w := Demo.world [] in
  let archive := Demo.select_file "/d/archive.tar.gz" in
  let notes := Demo.select_file "/d/notes.md.txt" in
  (extension_of archive = Some (u "tar") ∧
   on_directory_tree_file_selected w archive
   = sniff_then w archive (λ _, on_code_view w archive)) ∧
  (extension_of notes = Some (u "md") ∧
   on_directory_tree_file_selected w notes
   = sniff_then w notes (λ _, on_markdown_view w notes)).
Proof.
  intros w archive notes. split.
  - destruct (extension_is_segment_after_first_dot w archive
                (u "archive") (u "tar") (u ".gz")) as [H1 H2].
    + reflexivity.
    + refine (bool_decide_unpack _ _). vm_compute. exact I.
    + refine (bool_decide_unpack _ _). vm_compute. exact I.
    + right. exists (u "gz"). reflexivity.
    + split; [exact H1 | apply H2; reflexivity].
  - destruct (extension_is_segment_after_first_dot w notes
                (u "notes") (u "md") (u ".txt")) as [H1 H2].
    + reflexivity.
    + refine (bool_decide_unpack _ _). vm_compute. exact I.
    + refine (bool_decide_unpack _ _). vm_compute. exact I.
    + right. exists (u "txt"). reflexivity.
    + split; [exact H1 | apply H2; reflexivity].
Defined.

(** ** C10: dotfiles *)

Lemma on_code_view_no_buffer_sniff w event :
  Forall (λ ev, is_buffer_sniff ev = false) (trace (on_code_view w event)).
Proof.
  destruct (Syntax_from_path w (path event)) as [syntax|e] eqn:H.
  - rewrite (on_code_view_ok _ _ _ H). by repeat constructor.
  - rewrite (on_code_view_raise _ _ _ H). by repeat constructor.
Qed.

Lemma on_markdown_view_no_buffer_sniff w event :
  Forall (λ ev, is_buffer_sniff ev = false) (trace (on_markdown_view w event)).
Proof.
  destruct (file_text w (path event)) as [text|e] eqn:H.
  - destruct (Markdown_raises w (checkbox_markup text)) as [e|] eqn:H'.
    + rewrite (on_markdown_view_unrenderable _ _ _ _ H H'). by repeat constructor.
    + rewrite (on_markdown_view_ok _ _ _ H H'). by repeat constructor.
  - rewrite (on_markdown_view_unreadable _ _ _ H). by repeat constructor.
Qed.

(** C10. A base name that is a dot followed by a name without dots (such
    as .bashrc) has that name as its extension: a text/plain dotfile is
    rendered as code (as markdown for .md), not as a raw label, and no
    buffer sniff is made for it. *)
Theorem dotfile_name_is_its_extension
    (w : World) (event : FileSelected) (name : pystr) :
  basename (path event) = DOT :: name →
  DOT ∉ name →
  extension_of event = Some name ∧
  (magic_from_file w (path event) = Ok (u "text/plain") →
   on_directory_tree_file_selected w event
   = sniff_then w event
       (λ _, if decide (name = u "md") then on_markdown_view w event
             else on_code_view w event) ∧
   Forall (λ ev, is_buffer_sniff ev = false)
     (trace (on_directory_tree_file_selected w event))).
Proof.
  intros Hb Hn.
  assert (extension_of event = Some name) as Hext.
  { rewrite (extension_of_dotted event [] name); [| done | by apply not_elem_of_nil].
    by rewrite split_no_sep. }
  split; [done |]. intros Hm.
  rewrite (text_plain_with_extension _ _ _ Hm Hext). split; [done |].
  rewrite (sniff_then_ok _ _ _ _ Hm).
  do 2 (constructor; [done |]).
  destruct (decide (name = u "md")).
  - apply on_markdown_view_no_buffer_sniff.
  - apply on_code_view_no_buffer_sniff.
Qed.

Lemma dotfile_name_is_its_extension_witness :
  let w := Demo.world [] in
  let bashrc := Demo.select_file "/d/.bashrc" in
  extension_of bashrc = Some (u "bashrc") ∧
  on_directory_tree_file_selected w bashrc
  = sniff_then w bashrc (λ _, on_code_view w bashrc) ∧
  Forall (λ ev, is_buffer_sniff ev = false)
    (trace (on_directory_tree_file_selected w bashrc)).
Proof.
  intros w bashrc.
  destruct (dotfile_name_is_its_extension w bashrc (u "bashrc")) as [H1 H2].
  - reflexivity.
  - refine (bool_decide_unpack _ _). vm_compute. exact I.
  - split; [exact H1 | apply H2; reflexivity].
Defined.

(** ** C6: the buffer sniff of an extensionless text/plain file *)

Lemma extensionless_text_plain_run w event data guess :
  magic_from_file w (path event) = Ok (u "text/plain") →
  DOT ∉ basename (path event) →
  file_bytes w (path event) = Ok data →
  magic_from_buffer w (take 2048 data) = Ok guess →
  on_directory_tree_file_selected w event
  = Run [EvStop; EvMagicFromFile (path event);
         EvOpenRead (path event) "rb" (Some 2048);
         EvMagicFromBuffer (take 2048 data);
         EvUpdate Preview (RStr (u "text/plain"));
         EvSubTitle (SubReactive (u "Mime Type"))] (Ok ()).
Proof.
  intros Hm Hb Hd Hg.
  rewrite (dispatch_after_sniff _ _ _ Hm), (extension_of_none _ Hb), select_text_plain.
  unfold render_as, confirm_by_buffer, show_label.
  destruct (decide (u "text/plain" = u "text/plain")) as [_|?]; [| done].
  rewrite Hd. change (Ok data ≫= λ b, Ok (take 2048 b)) with (Ok (take 2048 data)).
  rewrite bind_call_ok, Hg. reflexivity.
Qed.

(** C6. For a path that sniffs as text/plain and whose base name has no
    dot, the handler sniffs the first 2048 bytes of the file a second
    time, from a buffer, and then shows the label text/plain under the
    generic subtitle whatever that second sniff returned: two worlds that
    differ only in the value the buffer sniff returns give the same run. *)
Theorem buffer_sniff_is_made_and_ignored
    (w1 w2 : World) (event : FileSelected) (data : list Byte.byte)
    (guess1 guess2 : pystr) (st : PreviewState) :
  magic_from_file w1 (path event) = Ok (u "text/plain") →
  magic_from_file w2 (path event) = Ok (u "text/plain") →
  DOT ∉ basename (path event) →
  file_bytes w1 (path event) = Ok data →
  file_bytes w2 (path event) = Ok data →
  magic_from_buffer w1 (take 2048 data) = Ok guess1 →
  magic_from_buffer w2 (take 2048 data) = Ok guess2 →
  let run1 := on_directory_tree_file_selected w1 event in
  let run2 := on_directory_tree_file_selected w2 event in
  EvMagicFromBuffer (take 2048 data) ∈ trace run1 ∧
  outcome run1 = Ok () ∧
  content (after st run1) = RStr (u "text/plain") ∧
  sub_title (after st run1) = SubReactive (u "Mime Type") ∧
  run1 = run2.
Proof.
  intros Hm1 Hm2 Hb Hd1 Hd2 Hg1 Hg2 run1 run2. subst run1 run2.
  rewrite (extensionless_text_plain_run w1 event data guess1) by done.
  rewrite (extensionless_text_plain_run w2 event data guess2) by done.
  repeat split. unfold trace. do 3 apply list_elem_of_further. apply list_elem_of_here.
Qed.

Lemma buffer_sniff_is_made_and_ignored_witness :
  let w1 := Demo.world (u "text/plain") in
  let w2 := Demo.world (u "application/x-shellscript") in
  let readme := Demo.select_file "/d/README" in
  let run1 := on_directory_tree_file_selected w1 readme in
  let run2 := on_directory_tree_file_selected w2 readme in
  EvMagicFromBuffer (Demo.bytes_of (u "hello")) ∈ trace run1 ∧
  outcome run1 = Ok () ∧
  content (after initial_state run1) = RStr (u "text/plain") ∧
  sub_title (after initial_state run1) = SubReactive (u "Mime Type") ∧
  run1 = run2.
Proof.
  intros w1 w2 readme.
  apply (buffer_sniff_is_made_and_ignored w1 w2 readme (Demo.bytes_of (u "hello"))
           (u "text/plain") (u "application/x-shellscript") initial_state).
  - reflexivity.
  - reflexivity.
  - refine (bool_decide_unpack _ _). vm_compute. exact I.
  - reflexivity.
  - reflexivity.
  - reflexivity.
  - reflexivity.
Defined.

(** ** C8: subtitle and scroll position after a successful transition *)

Lemma not_error_after_error_events st tr e :
  ¬ in_error_state (foldl apply_event st (tr ++ error_events e)) → False.
Proof.
  intros H. apply H. rewrite foldl_app. split; [by exists e | done].
Qed.

Lemma code_view_effects w event st tr :
  ¬ in_error_state (foldl apply_event st (tr ++ trace (on_code_view w event))) →
  let st' := foldl apply_event st (tr ++ trace (on_code_view w event)) in
  sub_title st' = SubStr (path event) ∧ scroll_y st' = 0 ∧
  List.filter is_scroll (trace (on_code_view w event)) = [EvScrollHome Viewbox false].
Proof.
  destruct (Syntax_from_path w (path event)) as [syntax|e] eqn:H.
  - rewrite (on_code_view_ok _ _ _ H). intros _. simpl. by rewrite !foldl_app.
  - rewrite (on_code_view_raise _ _ _ H). intros Hne. exfalso.
    by apply (not_error_after_error_events st (tr ++ [EvSyntaxFromPath (path event)]) e);
      rewrite <-app_assoc.
Qed.

Lemma markdown_view_effects w event st tr :
  ¬ in_error_state (foldl apply_event st (tr ++ trace (on_markdown_view w event))) →
  let st' := foldl apply_event st (tr ++ trace (on_markdown_view w event)) in
  sub_title st' = SubStr (path event) ∧ scroll_y st' = 0 ∧
  List.filter is_scroll (trace (on_markdown_view w event)) = [EvScrollHome Viewbox false].
Proof.
  destruct (file_text w (path event)) as [text|e] eqn:H.
  - destruct (Markdown_raises w (checkbox_markup text)) as [e|] eqn:H'.
    + rewrite (on_markdown_view_unrenderable _ _ _ _ H H'). intros Hne. exfalso.
      by apply (not_error_after_error_events st
                  (tr ++ [EvOpenRead (path event) "r" None; EvMarkdown (checkbox_markup text)]) e);
        rewrite <-app_assoc.
    + rewrite (on_markdown_view_ok _ _ _ H H'). intros _. simpl. by rewrite !foldl_app.
  - rewrite (on_markdown_view_unreadable _ _ _ H). intros Hne. exfalso.
    by apply (not_error_after_error_events st (tr ++ [EvOpenRead (path event) "r" None]) e);
      rewrite <-app_assoc.
Qed.

Lemma image_view_effects w event st tr :
  ¬ in_error_state (foldl apply_event st (tr ++ trace (on_image_view w event))) →
  sub_title (foldl apply_event st (tr ++ trace (on_image_view w event)))
  = SubStr (path event).
Proof.
  destruct (Image_open w (path event)) as [image|e] eqn:H.
  - destruct (img_to_string (Image_resize w) image 80 true) as [image_view|e] eqn:H'.
    + rewrite (on_image_view_ok _ _ _ _ H H'). intros _. simpl. by rewrite !foldl_app.
    + rewrite (on_image_view_unrasterizable _ _ _ _ H H'). intros Hne. exfalso.
      by apply (not_error_after_error_events st (tr ++ [EvImageOpen (path event)]) e);
        rewrite <-app_assoc.
  - rewrite (on_image_view_undecodable _ _ _ H). intros Hne. exfalso.
    by apply (not_error_after_error_events st (tr ++ [EvImageOpen (path event)]) e);
      rewrite <-app_assoc.
Qed.

Lemma label_effects w mime event st tr :
  outcome (render_as w mime event RawMimeLabel) = Ok () →
  sub_title (foldl apply_event st (tr ++ trace (render_as w mime event RawMimeLabel)))
  = SubReactive (u "Mime Type").
Proof.
  unfold render_as, confirm_by_buffer, show_label.
  destruct (decide (mime = u "text/plain")) as [_|_].
  - destruct (file_bytes w (path event)) as [b|e]; [| done].
    change (Ok b ≫= λ b, Ok (take 2048 b)) with (Ok (take 2048 b)).
    rewrite bind_call_ok.
    destruct (magic_from_buffer w (take 2048 b)) as [guess|e]; [| done].
    intros _. by rewrite foldl_app.
  - intros _. by rewrite foldl_app.
Qed.

(** C8. After a transition that returned and did not end in the error
    state, the subtitle is the path of the selected file when the mode is
    CodeView, MarkdownView or ImageView, and the marker Mime Type when it
    is RawMimeLabel; for CodeView and MarkdownView the scroll position is
    at the top, put there by exactly one scroll_home, called without
    animation. *)
Theorem subtitle_and_scroll_by_mode
    (w : World) (event : FileSelected) (st : PreviewState) (mime : pystr) :
  magic_from_file w (path event) = Ok mime →
  outcome (on_directory_tree_file_selected w event) = Ok () →
  ¬ in_error_state (after st (on_directory_tree_file_selected w event)) →
  let run := on_directory_tree_file_selected w event in
  match select mime (extension_of event) with
  | CodeView | MarkdownView =>
      sub_title (after st run) = SubStr (path event) ∧
      scroll_y (after st run) = 0 ∧
      List.filter is_scroll (trace run) = [EvScrollHome Viewbox false]
  | ImageView => sub_title (after st run) = SubStr (path event)
  | RawMimeLabel => sub_title (after st run) = SubReactive (u "Mime Type")
  end.
Proof.
  intros Hm. unfold after.
  rewrite (dispatch_after_sniff _ _ _ Hm). unfold trace at 1 2, outcome at 1.
  change (EvStop :: EvMagicFromFile (path event) :: ?t)
    with ([EvStop; EvMagicFromFile (path event)] ++ t).
  intros Hout Hne. cbv zeta. unfold trace at 1 3 5.
  destruct (select mime (extension_of event)).
  - by apply code_view_effects.
  - by apply markdown_view_effects.
  - by apply image_view_effects.
  - by apply label_effects.
Qed.

Lemma subtitle_and_scroll_by_mode_witness :
  let w := Demo.world [] in
  let st := initial_state in
  let page := Demo.select_file "/d/page.html" in
  let notes := Demo.select_file "/d/notes.md" in
  let photo := Demo.select_file "/d/photo.png" in
  let song := Demo.select_file "/d/song.mp3" in
  let run := on_directory_tree_file_selected w in
  (sub_title (after st (run page)) = SubStr (path page) ∧
   scroll_y (after st (run page)) = 0 ∧
   List.filter is_scroll (trace (run page)) = [EvScrollHome Viewbox false]) ∧
  (sub_title (after st (run notes)) = SubStr (path notes) ∧
   scroll_y (after st (run notes)) = 0 ∧
   List.filter is_scroll (trace (run notes)) = [EvScrollHome Viewbox false]) ∧
  sub_title (after st (run photo)) = SubStr (path photo) ∧
  sub_title (after st (run song)) = SubReactive (u "Mime Type").
Proof.
  intros w st page notes photo song run.
  split; [| split; [| split]].
  - pose proof (subtitle_and_scroll_by_mode w page st (u "text/html")) as H.
    specialize (H eq_refl).
    assert (outcome (run page) = Ok ()) as H2 by (vm_compute; reflexivity).
    specialize (H H2).
    assert (¬ in_error_state (after st (run page))) as H3.
    { intros [[e He] _]. vm_compute in He. discriminate. }
    exact (H H3).
  - pose proof (subtitle_and_scroll_by_mode w notes st (u "text/plain")) as H.
    specialize (H eq_refl).
    assert (outcome (run notes) = Ok ()) as H2 by (vm_compute; reflexivity).
    specialize (H H2).
    assert (¬ in_error_state (after st (run notes))) as H3.
    { intros [[e He] _]. vm_compute in He. discriminate. }
    exact (H H3).
  - pose proof (subtitle_and_scroll_by_mode w photo st (u "image/png")) as H.
    specialize (H eq_refl).
    assert (outcome (run photo) = Ok ()) as H2 by (vm_compute; reflexivity).
    specialize (H H2).
    assert (¬ in_error_state (after st (run photo))) as H3.
    { intros [[e He] _]. vm_compute in He. discriminate. }
    exact (H H3).
  - pose proof (subtitle_and_scroll_by_mode w song st (u "audio/mpeg")) as H.
    specialize (H eq_refl).
    assert (outcome (run song) = Ok ()) as H2 by (vm_compute; reflexivity).
    specialize (H H2).
    assert (¬ in_error_state (after st (run song))) as H3.
    { intros [[e He] _]. vm_compute in He. discriminate. }
    exact (H H3).
Defined.

(** ** C2: a failing path sniff *)

(** The sniff of line 81 is outside every [try]: when it raises, the
    exception leaves the handler and nothing has been shown. *)
Lemma sniff_failure_leaves_handler w event e :
  magic_from_file w (path event) = Raise e →
  on_directory_tree_file_selected w event
  = Run [EvStop; EvMagicFromFile (path event)] (Raise e).
Proof.
  intros H. unfold on_directory_tree_file_selected. by rewrite H.
Qed.

(** C2 (the code departs from it). Selecting a file that no longer exists
    makes the path sniff raise FileNotFoundError; the exception leaves
    [on_directory_tree_file_selected] uncaught, and the pane is left as it
    was instead of entering the error state. The three view handlers, by
    contrast, catch the same failure and show the error state. *)
Theorem missing_file_escapes_handler :
  let w := Demo.world [] in
  let gone := Demo.select_file "/d/gone.txt" in
  let run := on_directory_tree_file_selected w gone in
  magic_from_file w (path gone) = Raise FileNotFoundError ∧
  run = Run [EvStop; EvMagicFromFile (path gone)] (Raise FileNotFoundError) ∧
  after initial_state run = initial_state ∧
  ¬ in_error_state (after initial_state run) ∧
  in_error_state (after initial_state (on_code_view w gone)) ∧
  in_error_state (after initial_state (on_markdown_view w gone)) ∧
  in_error_state (after initial_state (on_image_view w gone)).
Proof.
  intros w gone run.
  assert (run = Run [EvStop; EvMagicFromFile (path gone)] (Raise FileNotFoundError)) as Hrun
    by (by apply sniff_failure_leaves_handler).
  split; [done |]. split; [done |]. rewrite Hrun.
  split; [done |]. split.
  - intros [[e He] _]. discriminate He.
  - rewrite (on_code_view_raise w gone FileNotFoundError) by done.
    rewrite (on_markdown_view_unreadable w gone FileNotFoundError) by done.
    rewrite (on_image_view_undecodable w gone (OtherException 0)) by done.
    by repeat split; eexists.
Qed.

(** ** C3: style classes and content *)

(** Neither raw-label branch touches a style class. *)
Lemma label_leaves_classes w mime event :
  List.filter is_class_update (trace (render_as w mime event RawMimeLabel)) = [].
Proof.
  unfold render_as, confirm_by_buffer, show_label.
  destruct (decide (mime = u "text/plain")) as [_|_]; [| done].
  destruct (file_bytes w (path event)) as [b|e]; [| done].
  change (Ok b ≫= λ b, Ok (take 2048 b)) with (Ok (take 2048 b)).
  rewrite bind_call_ok.
  by destruct (magic_from_buffer w (take 2048 b)).
Qed.

(** C3 (the code departs from it). Selecting an image and then a file of
    type audio/mpeg shows the label audio/mpeg while the image style
    classes set by the image view are still in place: the raw-label
    transition makes no style-class update at all, where the code and
    markdown views remove the image classes. *)
Theorem label_after_image_keeps_image_style :
  let w := Demo.world [] in
  let photo := Demo.select_file "/d/photo.png" in
  let song := Demo.select_file "/d/song.mp3" in
  let st1 := after initial_state (on_directory_tree_file_selected w photo) in
  let run2 := on_directory_tree_file_selected w song in
  let st2 := after st1 run2 in
  outcome run2 = Ok () ∧
  content st2 = RStr (u "audio/mpeg") ∧
  "image" ∈ preview_classes st2 ∧
  "image-view" ∈ viewbox_classes st2 ∧
  ("code-view" ∉ viewbox_classes st2) ∧
  List.filter is_class_update (trace run2) = [].
Proof.
  intros w photo song st1 run2 st2.
  assert (∃ image_view,
            on_directory_tree_file_selected w photo
            = Run (EvStop :: EvMagicFromFile (path photo) :: EvImageOpen (path photo)
                     :: image_view_events photo image_view) (Ok ())) as [image_view Hrun1].
  { destruct (img_to_string resize_nearest Demo.photo 80 true) as [s|e] eqn:Hs;
      [| by vm_compute in Hs].
    exists s. rewrite (dispatch_after_sniff w photo (u "image/png")) by done.
    change (select (u "image/png") (extension_of photo)) with ImageView.
    unfold render_as. by rewrite (on_image_view_ok w photo Demo.photo s). }
  assert (run2 = Run [EvStop; EvMagicFromFile (path song);
                      EvUpdate Preview (RStr (u "audio/mpeg"));
                      EvSubTitle (SubReactive (u "Mime Type"))] (Ok ())) as Hrun2
    by (vm_compute; reflexivity).
  subst st2 st1. rewrite Hrun2, Hrun1. unfold after, trace, image_view_events.
  cbn [foldl apply_event content preview_classes viewbox_classes].
  split; [reflexivity |]. split; [reflexivity |]. split; [| split; [| split]].
  - set_solver.
  - set_solver.
  - rewrite elem_of_union, elem_of_difference, !elem_of_singleton.
    intros [[_ Hc]|Hc]; [by apply Hc | discriminate].
  - reflexivity.
Qed.

(** ** str.replace *)

Lemma strip_prefix_length old s rest :
  strip_prefix old s = Some rest → length s = (length old + length rest)%nat.
Proof.
  revert s. induction old as [|a old IH]; intros s H; simpl in *.
  - by injection H as ->.
  - destruct s as [|c s]; [done |]. destruct (decide (a = c)); [| done].
    simpl. by rewrite (IH s H).
Qed.

Lemma strip_prefix_app old s : strip_prefix old (old ++ s) = Some s.
Proof.
  induction old as [|a old IH]; simpl; [done |]. by destruct (decide (a = a)).
Qed.

Lemma strip_prefix_Some old s rest : strip_prefix old s = Some rest → s = old ++ rest.
Proof.
  revert s. induction old as [|a old IH]; intros s H; simpl in *.
  - by injection H as ->.
  - destruct s as [|c s]; [done |]. destruct (decide (a = c)) as [->|]; [| done].
    by rewrite (IH s H).
Qed.

Section Replace.

Variables (h : codepoint) (old' new : pystr).
Local Abbreviation old := (h :: old').

(** Fuel beyond the length of the string changes nothing. *)
Lemma replace_scan_fuel fuel s :
  (length s ≤ fuel)%nat →
  replace_scan fuel old new s = replace_scan (length s) old new s.
Proof.
  revert s. induction (lt_wf fuel) as [fuel _ IH]. intros s Hlen.
  destruct s as [|c s]; [by destruct fuel |].
  destruct fuel as [|fuel]; [simpl in Hlen; lia |].
  change (length (c :: s)) with (S (length s)). simpl in Hlen.
  cbn [replace_scan].
  destruct (strip_prefix old (c :: s)) as [rest|] eqn:Hp.
  - apply strip_prefix_length in Hp. simpl in Hp.
    rewrite (IH fuel) by lia. rewrite (IH (length s)); [done | lia | lia].
  - by rewrite (IH fuel) by lia.
Qed.

Lemma replace_nil : replace old new [] = [].
Proof. reflexivity. Qed.

Lemma replace_match c s rest :
  strip_prefix old (c :: s) = Some rest →
  replace old new (c :: s) = new ++ replace old new rest.
Proof.
  intros Hp. unfold replace.
  change (length (c :: s)) with (S (length s)). cbn [replace_scan]. rewrite Hp.
  apply strip_prefix_length in Hp. simpl in Hp.
  by rewrite replace_scan_fuel by lia.
Qed.

Lemma replace_skip c s :
  strip_prefix old (c :: s) = None →
  replace old new (c :: s) = c :: replace old new s.
Proof.
  intros Hp. unfold replace.
  change (length (c :: s)) with (S (length s)). cbn [replace_scan]. by rewrite Hp.
Qed.

(** When the replacement begins like the pattern, a text [q] free of
    that first character passes through unchanged, and is found behind
    the replacement only where it stood before. *)
Hypothesis new_head : ∃ new', new = h :: new'.

Lemma replace_passes q s rest :
  h ∉ q → strip_prefix q s = Some rest →
  replace old new s = q ++ replace old new rest.
Proof.
  revert s. induction q as [|a q IH]; intros s Hq Hs; simpl in Hs.
  - by injection Hs as ->.
  - destruct s as [|c s]; [done |]. destruct (decide (a = c)) as [->|]; [| done].
    apply not_elem_of_cons in Hq as [Hc Hq].
    rewrite replace_skip; [by rewrite (IH s) |].
    simpl. by destruct (decide (h = c)).
Qed.

Lemma replace_reflects q s t :
  h ∉ q → strip_prefix q (replace old new s) = Some t →
  ∃ rest, strip_prefix q s = Some rest ∧ t = replace old new rest.
Proof using new_head.
  revert s t. induction q as [|a q IH]; intros s t Hq Ht.
  - injection Ht as <-. by exists s.
  - apply not_elem_of_cons in Hq as [Hc Hq].
    destruct s as [|c s]; [by rewrite replace_nil in Ht |].
    destruct (strip_prefix old (c :: s)) as [rest|] eqn:Hp.
    + rewrite (replace_match _ _ _ Hp) in Ht.
      destruct new_head as [new' ->]. simpl in Ht.
      by destruct (decide (a = h)).
    + rewrite (replace_skip _ _ Hp) in Ht. simpl in *.
      destruct (decide (a = c)); [| done]. by apply IH.
Qed.

End Replace.

(** ** C5: the check-box substitutions of the markdown view *)

Lemma checked_after_unchecked_box t :
  replace (u "-[x]") (u "- " ++ [BALLOT_BOX_WITH_X]) (u "- " ++ [BALLOT_BOX] ++ t)
  = u "- " ++ [BALLOT_BOX] ++ replace (u "-[x]") (u "- " ++ [BALLOT_BOX_WITH_X]) t.
Proof.
  change (u "-[x]") with (HYPHEN :: u "[x]").
  change (u "- " ++ [BALLOT_BOX] ++ t) with (HYPHEN :: 32%N :: BALLOT_BOX :: t).
  by rewrite !replace_skip by done.
Qed.

Lemma checkbox_markup_subst text : checkbox_subst text (checkbox_markup text).
Proof.
  unfold checkbox_markup.
  remember (length text) as n eqn:Hn. revert text Hn.
  induction (lt_wf n) as [n _ IH]. intros text ->.
  assert (∀ rest : pystr, (length rest < length text)%nat →
            checkbox_subst rest
              (replace (u "-[x]") (u "- " ++ [BALLOT_BOX_WITH_X])
                 (replace (u "-[ ]") (u "- " ++ [BALLOT_BOX]) rest))) as IH'.
  { intros rest Hlen. by apply (IH (length rest)). }
  clear IH. destruct text as [|c s]; [by constructor |].
  change (u "-[ ]") with (HYPHEN :: u "[ ]") in *.
  change (u "-[x]") with (HYPHEN :: u "[x]") in *.
  assert (∃ new', u "- " ++ [BALLOT_BOX] = HYPHEN :: new') as Hnew by (by eexists).
  assert (HYPHEN ∉ u "[x]") as Hfree
    by (refine (bool_decide_unpack _ _); vm_compute; exact I).
  destruct (strip_prefix (HYPHEN :: u "[ ]") (c :: s)) as [rest|] eqn:H1.
  - (* an unchecked box *)
    rewrite (replace_match _ _ _ _ _ _ H1).
    pose proof (strip_prefix_length _ _ _ H1) as Hlen.
    apply strip_prefix_Some in H1 as ->.
    rewrite <-(app_assoc (u "- ")), checked_after_unchecked_box.
    apply subst_unchecked, IH'. rewrite Hlen. simpl. lia.
  - rewrite (replace_skip _ _ _ _ _ H1).
    destruct (strip_prefix (HYPHEN :: u "[x]") (c :: s)) as [rest|] eqn:H2.
    + (* a checked box *)
      pose proof (strip_prefix_length _ _ _ H2) as Hlen.
      assert (c = HYPHEN) as ->.
      { simpl in H2. by destruct (decide (HYPHEN = c)). }
      assert (strip_prefix (u "[x]") s = Some rest) as H2'.
      { simpl in H2. by destruct (decide (HYPHEN = HYPHEN)). }
      rewrite (replace_passes HYPHEN _ _ (u "[x]") s rest Hfree H2').
      rewrite (replace_match HYPHEN (u "[x]") _ HYPHEN _
                 (replace (HYPHEN :: u "[ ]") (u "- " ++ [BALLOT_BOX]) rest));
        [| apply (strip_prefix_app (HYPHEN :: u "[x]"))].
      apply strip_prefix_Some in H2 as H2''. injection H2'' as ->.
      apply (subst_checked rest), IH'. rewrite Hlen. simpl. lia.
    + (* any other character *)
      rewrite replace_skip.
      * apply subst_keep; [done | done |]. apply IH'. simpl. lia.
      * destruct (strip_prefix (HYPHEN :: u "[x]")
                    (c :: replace (HYPHEN :: u "[ ]") (u "- " ++ [BALLOT_BOX]) s))
          as [t|] eqn:H3; [| done].
        exfalso. cbn [strip_prefix] in H3, H2.
        destruct (decide (HYPHEN = c)) as [<-|]; [| done].
        destruct (replace_reflects HYPHEN _ _ Hnew _ _ _ Hfree H3) as (rest & Hr & _).
        by rewrite Hr in H2.
Qed.

(** The substitution determines its result. *)
Lemma checkbox_subst_functional s t1 t2 :
  checkbox_subst s t1 → checkbox_subst s t2 → t1 = t2.
Proof.
  intros H1. revert t2.
  induction H1 as [|s t _ IH|s t _ IH|c s t Hu Hc _ IH]; intros t2 H2;
    inversion H2; subst;
    try done;
    try (by repeat f_equal; apply IH);
    try (by match goal with
            | H : strip_prefix _ _ = None |- _ => vm_compute in H
            end).
Qed.

(** C5. When the file can be read (and the renderer accepts the text),
    the markdown view hands the renderer, before anything is shown, the
    text of the file with every -[ ] replaced by - ☐ and every -[x]
    replaced by - ☒, and shows the rendered result; when reading the file
    (or rendering) fails, the pane ends in the error state. *)
Theorem markdown_view_substitutes_checkboxes (w : World) (event : FileSelected) :
  (∀ text,
     file_text w (path event) = Ok text →
     Markdown_raises w (checkbox_markup text) = None →
     checkbox_subst text (checkbox_markup text) ∧
     (∀ t, checkbox_subst text t → t = checkbox_markup text) ∧
     on_markdown_view w event
     = Run (EvOpenRead (path event) "r" None :: EvMarkdown (checkbox_markup text)
              :: markdown_view_events event (checkbox_markup text)) (Ok ())) ∧
  (∀ e st,
     file_text w (path event) = Raise e →
     outcome (on_markdown_view w event) = Ok () ∧
     in_error_state (after st (on_markdown_view w event))) ∧
  (∀ text e st,
     file_text w (path event) = Ok text →
     Markdown_raises w (checkbox_markup text) = Some e →
     outcome (on_markdown_view w event) = Ok () ∧
     in_error_state (after st (on_markdown_view w event))).
Proof.
  split; [| split].
  - intros text Ht Hm. split; [apply checkbox_markup_subst |]. split.
    + intros t Hsub.
      by apply (checkbox_subst_functional text); [| apply checkbox_markup_subst].
    + by apply on_markdown_view_ok.
  - intros e st Ht. rewrite (on_markdown_view_unreadable _ _ _ Ht).
    split; [done |]. split; [by exists e | done].
  - intros text e st Ht Hm. rewrite (on_markdown_view_unrenderable _ _ _ _ Ht Hm).
    split; [done |]. split; [by exists e | done].
Qed.

Lemma markdown_view_substitutes_checkboxes_witness :
  let w := Demo.world [] in
  let notes := Demo.select_file "/d/notes.md" in
  let gone := Demo.select_file "/d/gone.md" in
  let markup := u "- " ++ [BALLOT_BOX] ++ u " a" ++ [LF] ++ u "- " ++ [BALLOT_BOX_WITH_X] ++ u " b" in
  (checkbox_subst (u "-[ ] a" ++ [LF] ++ u "-[x] b") markup ∧
   (∀ t, checkbox_subst (u "-[ ] a" ++ [LF] ++ u "-[x] b") t → t = markup) ∧
   on_markdown_view w notes
   = Run (EvOpenRead (path notes) "r" None :: EvMarkdown markup
            :: markdown_view_events notes markup) (Ok ())) ∧
  (outcome (on_markdown_view w gone) = Ok () ∧
   in_error_state (after initial_state (on_markdown_view w gone))).
Proof.
  intros w notes gone markup. split.
  - apply (proj1 (markdown_view_substitutes_checkboxes w notes)
             (u "-[ ] a" ++ [LF] ++ u "-[x] b")); reflexivity.
  - apply (proj1 (proj2 (markdown_view_substitutes_checkboxes w gone))
             FileNotFoundError initial_state); reflexivity.
Defined.

(** ** The rasterizer: heights, ranges and pixel accesses *)

(** Linear arithmetic with division and remainder by constants. *)
Ltac zlia := Z.to_euclidean_division_equations; lia.

Lemma scaled_height_even img_width img_height dest_width d :
  scaled_height img_width img_height dest_width = Ok d → d `mod` 2 = 0.
Proof.
  unfold scaled_height.
  destruct (PyFloat.int_truediv img_width dest_width) as [scale|]; [| done].
  cbn [mbind result_bind].
  destruct (PyFloat.int_float_truediv img_height scale) as [q|]; [| done].
  cbn [mbind result_bind].
  destruct (PyFloat.to_int q) as [h|]; [| done].
  cbn [mbind result_bind].
  destruct (decide (h `mod` 2 ≠ 0)); intros [= <-]; zlia.
Qed.

Lemma scaled_height_no_index_error img_width img_height dest_width :
  scaled_height img_width img_height dest_width ≠ Raise IndexError.
Proof.
  unfold scaled_height, PyFloat.int_truediv, PyFloat.int_float_truediv,
    PyFloat.truediv, PyFloat.of_int, PyFloat.to_int.
  destruct (decide (dest_width = 0)); [done |].
  destruct (binary_normalize _ _ img_width 0 false); try done;
    destruct (binary_normalize _ _ dest_width 0 false); try done;
    cbn [mbind result_bind];
    destruct (binary_normalize _ _ img_height 0 false); try done;
    cbn [mbind result_bind];
    match goal with |- context [PyFloat.is_zero ?f] => destruct (PyFloat.is_zero f) end;
    try done; cbn [mbind result_bind];
    match goal with |- context [SFdiv ?p ?e ?a ?b] => destruct (SFdiv p e a b) end;
    try done; cbn [mbind result_bind]; by case_decide.
Qed.

Lemma elem_of_range_rows d y : y ∈ range 0 d 2 → 0 ≤ y < d ∧ y `mod` 2 = 0.
Proof.
  unfold range. intros (i & -> & Hi)%list_elem_of_fmap.
  apply elem_of_seq in Hi. zlia.
Qed.

Lemma elem_of_range_columns n x : x ∈ range 0 n 1 → 0 ≤ x < n.
Proof.
  unfold range. intros (i & -> & Hi)%list_elem_of_fmap.
  apply elem_of_seq in Hi. zlia.
Qed.

Lemma length_range_rows d : d `mod` 2 = 0 → length (range 0 d 2) = Z.to_nat (d `div` 2).
Proof.
  intros Hd. unfold range. rewrite length_map, length_seq. f_equal. zlia.
Qed.

Lemma length_range_columns n : length (range 0 n 1) = Z.to_nat n.
Proof.
  unfold range. rewrite length_map, length_seq. f_equal. zlia.
Qed.

Lemma getpixel_inside img x y :
  0 ≤ x < (size img).1 → 0 ≤ y < (size img).2 →
  getpixel img (x, y) = Ok (pixel img x y).
Proof.
  unfold getpixel. destruct (size img) as [xsize ysize]; simpl. intros Hx Hy.
  destruct (decide (x < 0)); [lia |]. destruct (decide (y < 0)); [lia |].
  destruct (decide (x < 0 ∨ xsize ≤ x ∨ y < 0 ∨ ysize ≤ y)); [lia | done].
Qed.

(** Both pixels of a cell lie inside an image of even height. *)
Lemma row_pair_inside img dest_width d y x :
  size img = (dest_width, d) → d `mod` 2 = 0 →
  y ∈ range 0 d 2 → x ∈ range 0 dest_width 1 →
  getpixel img (x, y) = Ok (pixel img x y) ∧
  getpixel img (x, y + 1) = Ok (pixel img x (y + 1)).
Proof.
  intros Hsize Hd [Hy Hy2]%elem_of_range_rows Hx%elem_of_range_columns.
  split; apply getpixel_inside; rewrite Hsize; simpl; zlia.
Qed.

Lemma for_each_never_raises {A S} (xs : list A) (body : A → S → result S) s e :
  (∀ x s, x ∈ xs → body x s ≠ Raise e) → for_each xs body s ≠ Raise e.
Proof.
  revert s. induction xs as [|x xs IH]; intros s Hbody; [done |].
  cbn [for_each]. destruct (body x s) as [s'|e'] eqn:Hb.
  - cbn [mbind result_bind]. apply IH. intros x' s'' Hx'. apply Hbody. by right.
  - cbn [mbind result_bind]. intros [= ->]. by apply (Hbody x s); [left |].
Qed.

Lemma unpack3_no_index_error {B} v (k : Z * Z * Z → result B) :
  (∀ rgb, k rgb ≠ Raise IndexError) → (unpack3 v ≫= k) ≠ Raise IndexError.
Proof.
  intros Hk. destruct v as [[|r [|g [|b [|]]]]|]; try done. apply Hk.
Qed.

Lemma emit_cell_no_index_error img unicode y x output :
  getpixel img (x, y) = Ok (pixel img x y) →
  getpixel img (x, y + 1) = Ok (pixel img x (y + 1)) →
  emit_cell img unicode y x output ≠ Raise IndexError.
Proof.
  intros H1 H2. unfold emit_cell. destruct unicode.
  - rewrite H1. cbn [mbind result_bind].
    apply unpack3_no_index_error. intros [[r1 g1] b1].
    rewrite H2. cbn [mbind result_bind].
    apply unpack3_no_index_error. by intros [[r2 g2] b2].
  - rewrite H1. cbn [mbind result_bind].
    apply unpack3_no_index_error. by intros [[r g] b].
Qed.

(** C9. In the rasterizer every [getpixel] is inside the resized image:
    the height is even after the bump, so for each row index y of the
    outer loop and column x of the inner loop both (x, y) and (x, y + 1)
    are coordinates of the image, and [img_to_string] cannot raise
    [IndexError], whatever the input image (given that the resize returns
    an image of the size asked for and does not itself raise it). *)
Theorem getpixel_never_out_of_bounds
    (resize : Image → Z * Z → result Image) (img : Image)
    (dest_width : Z) (unicode : bool) :
  (∀ sz img', resize img sz = Ok img' → size img' = sz) →
  (∀ sz, resize img sz ≠ Raise IndexError) →
  (∀ d img' y x,
     scaled_height (size img).1 (size img).2 dest_width = Ok d →
     resize img (dest_width, d) = Ok img' →
     y ∈ range 0 d 2 → x ∈ range 0 dest_width 1 →
     0 ≤ x < (size img').1 ∧ 0 ≤ y ∧ y + 1 < (size img').2 ∧
     getpixel img' (x, y) = Ok (pixel img' x y) ∧
     getpixel img' (x, y + 1) = Ok (pixel img' x (y + 1))) ∧
  img_to_string resize img dest_width unicode ≠ Raise IndexError.
Proof.
  intros Hsize Hres.
  assert (∀ d img' y x,
     scaled_height (size img).1 (size img).2 dest_width = Ok d →
     resize img (dest_width, d) = Ok img' →
     y ∈ range 0 d 2 → x ∈ range 0 dest_width 1 →
     0 ≤ x < (size img').1 ∧ 0 ≤ y ∧ y + 1 < (size img').2 ∧
     getpixel img' (x, y) = Ok (pixel img' x y) ∧
     getpixel img' (x, y + 1) = Ok (pixel img' x (y + 1))) as Hin.
  { intros d img' y x Hd Hr Hy Hx.
    pose proof (scaled_height_even _ _ _ _ Hd) as Heven.
    pose proof (Hsize _ _ Hr) as Hs.
    destruct (row_pair_inside img' dest_width d y x Hs Heven Hy Hx) as [H1 H2].
    apply elem_of_range_rows in Hy. apply elem_of_range_columns in Hx.
    rewrite Hs. simpl. repeat split; try done; zlia. }
  split; [exact Hin |].
  unfold img_to_string. destruct (size img) as [img_width img_height] eqn:Hsz.
  simpl in Hin.
  destruct (scaled_height img_width img_height dest_width) as [d|e] eqn:Hd.
  - cbn [mbind result_bind].
    destruct (resize img (dest_width, d)) as [img'|e] eqn:Hr.
    + cbn [mbind result_bind]. apply for_each_never_raises. intros y out Hy.
      destruct (for_each (range 0 dest_width 1) (emit_cell img' unicode y) out)
        as [out'|e] eqn:Hrow; [done |].
      cbn [mbind result_bind]. intros [= ->]. revert Hrow.
      apply for_each_never_raises. intros x out' Hx. destruct (Hin d img' y x eq_refl Hr Hy Hx) as (_ & _ & _ & H1 & H2).
      by apply emit_cell_no_index_error.
    + cbn [mbind result_bind]. intros [= ->]. by apply (Hres (dest_width, d)).
  - cbn [mbind result_bind]. intros [= ->]. revert Hd.
    apply scaled_height_no_index_error.
Qed.

(** ** The rasterizer: the shape of the output *)

Lemma for_each_appends {A} (xs : list A) (f : A → pystr) body (out : pystr) :
  (∀ x out, x ∈ xs → body x out = Ok (out ++ f x)) →
  for_each xs body out = Ok (out ++ concat (map f xs)).
Proof.
  revert out. induction xs as [|x xs IH]; intros out Hbody; simpl.
  - by rewrite app_nil_r.
  - rewrite Hbody by left. cbn [mbind result_bind].
    rewrite IH; [by rewrite app_assoc |]. intros x' out' Hx'. apply Hbody. by right.
Qed.

Lemma emit_cell_rgb img y x out :
  is_rgb img →
  0 ≤ x < (size img).1 → 0 ≤ y → y + 1 < (size img).2 →
  emit_cell img true y x out = Ok (out ++ cell_at img y x) ∧ is_cell (cell_at img y x).
Proof.
  intros Hrgb Hx Hy Hy'. unfold emit_cell, cell_at.
  rewrite !getpixel_inside by lia.
  destruct (Hrgb x y) as (r1 & g1 & b1 & ->); [lia | lia |].
  destruct (Hrgb x (y + 1)) as (r2 & g2 & b2 & ->); [lia | lia |].
  split; [done |]. by exists r1, g1, b1, r2, g2, b2.
Qed.

Lemma img_to_string_rows resize img img' dest_width d :
  scaled_height (size img).1 (size img).2 dest_width = Ok d →
  resize img (dest_width, d) = Ok img' →
  size img' = (dest_width, d) →
  is_rgb img' →
  let rows := map (λ y, map (cell_at img' y) (range 0 dest_width 1)) (range 0 d 2) in
  img_to_string resize img dest_width true = Ok (render_rows rows) ∧
  length rows = Z.to_nat (d `div` 2) ∧
  Forall (λ row, length row = Z.to_nat dest_width ∧ Forall is_cell row) rows.
Proof.
  intros Hd Hr Hsize Hrgb rows.
  pose proof (scaled_height_even _ _ _ _ Hd) as Heven.
  assert (∀ y x, y ∈ range 0 d 2 → x ∈ range 0 dest_width 1 →
            0 ≤ x < (size img').1 ∧ 0 ≤ y ∧ y + 1 < (size img').2) as Hin.
  { intros y x Hy%elem_of_range_rows Hx%elem_of_range_columns.
    rewrite Hsize. simpl. zlia. }
  split; [| split].
  - unfold img_to_string. destruct (size img) as [img_width img_height].
    simpl in Hd. rewrite Hd. cbn [mbind result_bind]. rewrite Hr.
    cbn [mbind result_bind].
    rewrite (for_each_appends _
               (λ y, concat (map (cell_at img' y) (range 0 dest_width 1)) ++ [LF])).
    + unfold render_rows, rows. by rewrite map_map.
    + intros y out Hy.
      rewrite (for_each_appends _ (cell_at img' y)).
      * cbn [mbind result_bind]. by rewrite app_assoc.
      * intros x out' Hx. destruct (Hin y x Hy Hx) as (? & ? & ?).
        by apply emit_cell_rgb.
  - unfold rows. rewrite length_map. by apply length_range_rows.
  - unfold rows. apply Forall_forall. intros row (y & -> & Hy)%list_elem_of_fmap.
    split; [by rewrite length_map, length_range_columns |].
    apply Forall_forall. intros c (x & -> & Hx)%list_elem_of_fmap.
    destruct (Hin y x Hy Hx) as (? & ? & ?).
    by apply (emit_cell_rgb img' y x []).
Qed.

(** No line break inside a cell. *)
Lemma no_lf_uint d : LF ∉ u (NilEmpty.string_of_uint d).
Proof.
  induction d; cbn [NilEmpty.string_of_uint u];
    [apply not_elem_of_nil | apply not_elem_of_cons; split; [discriminate | done] ..].
Qed.

Lemma no_lf_str_of_int n : LF ∉ str_of_int n.
Proof.
  unfold str_of_int. destruct (Z.to_int n); cbn [NilEmpty.string_of_int u].
  - apply no_lf_uint.
  - apply not_elem_of_cons. split; [discriminate | apply no_lf_uint].
Qed.

Lemma no_lf_literal (s : string) :
  bool_decide (LF ∉ u s) = true → LF ∉ u s.
Proof. apply bool_decide_eq_true_1. Qed.

Lemma no_lf_cell c : is_cell c → LF ∉ c.
Proof.
  intros (r1 & g1 & b1 & r2 & g2 & b2 & ->). unfold cell_unicode.
  repeat (apply not_elem_of_app; split);
    try apply no_lf_str_of_int;
    try (apply no_lf_literal; reflexivity).
  apply not_elem_of_cons. split; [discriminate | apply not_elem_of_nil].
Qed.

Lemma no_lf_row (row : list pystr) : Forall is_cell row → LF ∉ concat row.
Proof.
  induction 1 as [|c row Hc _ IH]; simpl; [apply not_elem_of_nil |].
  apply not_elem_of_app. split; [by apply no_lf_cell | done].
Qed.

Lemma split_render_rows rows :
  Forall (Forall is_cell) rows →
  split LF (render_rows rows) = map (λ row, concat row) rows ++ [[]].
Proof.
  induction 1 as [|row rows Hrow _ IH]; [done |].
  unfold render_rows in *. cbn [map concat]. rewrite <-!app_assoc. cbn [app].
  rewrite split_app_sep by (by apply no_lf_row). by rewrite IH.
Qed.

Lemma splitlines_render_rows rows :
  Forall (Forall is_cell) rows → splitlines (render_rows rows) = map (λ row, concat row) rows.
Proof.
  intros H. unfold splitlines. rewrite (split_render_rows _ H).
  by rewrite last_snoc, removelast_last.
Qed.

(** ** Binary64 arithmetic on image dimensions

    The height computation divides small positive integers. Such integers
    convert to normal floats (a mantissa of 53 digits), the quotient of two
    normal floats of moderate exponents is again normal, and a normal
    positive float truncates to a non-negative integer: nothing in
    [scaled_height] raises. *)

Lemma digits2_pos_bounds p :
  2 ^ (Zpos (digits2_pos p) - 1) ≤ Zpos p < 2 ^ Zpos (digits2_pos p).
Proof.
  induction p as [p IH|p IH|]; cbn [digits2_pos].
  - rewrite Pos2Z.inj_succ. replace (Z.succ (Z.pos (digits2_pos p)) - 1) with (Z.succ (Z.pos (digits2_pos p) - 1)) by lia.
    rewrite !Z.pow_succ_r by lia. lia.
  - rewrite Pos2Z.inj_succ. replace (Z.succ (Z.pos (digits2_pos p)) - 1) with (Z.succ (Z.pos (digits2_pos p) - 1)) by lia.
    rewrite !Z.pow_succ_r by lia. lia.
  - simpl. lia.
Qed.

Lemma digits2_pos_unique p k :
  2 ^ (k - 1) ≤ Zpos p < 2 ^ k → Zpos (digits2_pos p) = k.
Proof.
  intros [Hlo Hhi]. pose proof (digits2_pos_bounds p) as [Hlo' Hhi'].
  destruct (Z.lt_trichotomy (Zpos (digits2_pos p)) k) as [Hlt|[Heq|Hgt]]; [| done |].
  - assert (2 ^ Zpos (digits2_pos p) ≤ 2 ^ (k - 1)) by (apply Z.pow_le_mono_r; lia). lia.
  - assert (2 ^ k ≤ 2 ^ (Zpos (digits2_pos p) - 1)) by (apply Z.pow_le_mono_r; lia). lia.
Qed.

Lemma digits_53 p : 4503599627370496 ≤ Zpos p < 9007199254740992 → Zpos (digits2_pos p) = 53.
Proof. intros H. by apply digits2_pos_unique. Qed.
Lemma digits_54 p : 9007199254740992 ≤ Zpos p < 18014398509481984 → Zpos (digits2_pos p) = 54.
Proof. intros H. by apply digits2_pos_unique. Qed.

Lemma shr_m_of_loc m l : shr_m (shr_record_of_loc m l) = m.
Proof. by destruct l as [|[]]. Qed.

Lemma round_nearest_even_cases m l :
  round_nearest_even m l = m ∨ round_nearest_even m l = m + 1.
Proof. destruct l as [|[]]; simpl; auto. destruct (Z.even m); auto. Qed.

Lemma shr_1_halves r : 0 ≤ shr_m r → shr_m (shr_1 r) = shr_m r `div` 2.
Proof.
  destruct r as [m r s]. cbn [shr_m]. intros Hm.
  destruct m as [|[p|p|]|]; cbn [shr_1 shr_m]; [done | zlia | zlia | done | lia].
Qed.

Lemma fexp_binary64 x : -1021 ≤ x → fexp 53 1024 x = x - 53.
Proof. unfold fexp, emin. lia. Qed.

(** The first shift of [binary_round_aux] leaves a mantissa of 53 digits. *)
Lemma shr_fexp_first q e l :
  4503599627370496 ≤ q < 18014398509481984 → -1074 ≤ e →
  ∃ mrs e', shr_fexp 53 1024 q e l = (mrs, e') ∧ is53 (shr_m mrs) ∧ e ≤ e' ≤ e + 1.
Proof.
  intros Hq He. destruct q as [|p|p]; [lia | | lia]. unfold shr_fexp.
  destruct (decide (Zpos p < 9007199254740992)) as [Hlt|Hge].
  - cbn [Zdigits2]. rewrite digits_53 by lia. rewrite fexp_binary64 by lia.
    replace (53 + e - 53 - e) with 0 by lia. cbn [shr].
    eexists _, _. split; [done |]. rewrite shr_m_of_loc. unfold is53. lia.
  - cbn [Zdigits2]. rewrite digits_54 by lia. rewrite fexp_binary64 by lia.
    replace (54 + e - 53 - e) with 1 by lia. cbn [shr iter_pos].
    eexists _, _. split; [done |]. rewrite shr_1_halves, shr_m_of_loc by (rewrite shr_m_of_loc; lia).
    unfold is53. zlia.
Qed.

(** The second shift and the final classification. *)
Lemma binary_round_finish M e :
  4503599627370496 ≤ M ≤ 9007199254740992 → -1074 ≤ e ≤ 969 →
  ∃ m e',
    (let '(mrs, e'') := shr_fexp 53 1024 M e loc_Exact in
     match shr_m mrs with
     | Z0 => S754_zero false
     | Zpos m => if Z.leb e'' (1024 - 53) then S754_finite false m e'' else S754_infinity false
     | _ => S754_nan
     end) = S754_finite false m e' ∧ is53 (Zpos m) ∧ e ≤ e' ≤ e + 1.
Proof.
  intros HM He.
  destruct (shr_fexp_first M e loc_Exact) as (mrs & e' & -> & Hm & He'); [lia | lia |].
  destruct (shr_m mrs) as [|m|m] eqn:Hmrs; unfold is53 in Hm; [lia | | lia].
  exists m, e'. split; [| done].
  destruct (Z.leb_spec e' (1024 - 53)); [done | lia].
Qed.

Lemma binary_round_aux_normal q e l :
  4503599627370496 ≤ q < 18014398509481984 → -1074 ≤ e ≤ 968 →
  ∃ m e', binary_round_aux 53 1024 false q e l = S754_finite false m e' ∧
          is53 (Zpos m) ∧ e ≤ e' ≤ e + 2.
Proof.
  intros Hq He. unfold binary_round_aux.
  destruct (shr_fexp_first q e l) as (mrs & e1 & -> & Hm & He1); [lia | lia |].
  destruct (binary_round_finish
              (round_nearest_even (shr_m mrs) (loc_of_shr_record mrs)) e1)
    as (m & e' & Hfin & Hm' & He'); [| lia |].
  - unfold is53 in Hm. destruct (round_nearest_even_cases (shr_m mrs) (loc_of_shr_record mrs)) as [-> | ->]; lia.
  - exists m, e'. split; [exact Hfin | split; [done | lia]].
Qed.

Lemma Pos_iter_xO p d : Zpos (Pos.iter xO p d) = Zpos p * 2 ^ Zpos d.
Proof.
  induction d as [|d IH] using Pos.peano_ind.
  - simpl. lia.
  - rewrite Pos.iter_succ, Pos2Z.inj_xO, IH, Pos2Z.inj_succ, Z.pow_succ_r by lia. lia.
Qed.

(** An [int] between 1 and 2^53 converts to a normal float. *)
Lemma binary_normalize_normal n :
  0 < n < 9007199254740992 →
  ∃ m e, binary_normalize 53 1024 n 0 false = S754_finite false m e ∧
         is53 (Zpos m) ∧ -52 ≤ e ≤ 2.
Proof.
  intros Hn. destruct n as [|p|p]; [lia | | lia].
  cbn [binary_normalize]. unfold binary_round.
  pose proof (digits2_pos_bounds p) as [Hlo Hhi].
  assert (0 < Zpos (digits2_pos p) ≤ 53) as Hd.
  { split; [lia |]. destruct (decide (Zpos (digits2_pos p) ≤ 53)); [done |].
    assert (2 ^ 53 ≤ 2 ^ (Zpos (digits2_pos p) - 1)) by (apply Z.pow_le_mono_r; lia).
    change (2 ^ 53) with 9007199254740992 in *. lia. }
  rewrite fexp_binary64 by lia. unfold shl_align.
  replace (Z.pos (digits2_pos p) + 0 - 53 - 0) with (Z.pos (digits2_pos p) - 53) by lia.
  destruct (Z.pos (digits2_pos p) - 53) as [|k|k] eqn:Hk; [| lia |].
  - destruct (binary_round_aux_normal (Zpos p) 0 loc_Exact) as (m & e & -> & Hm & He).
    + assert (Z.pos (digits2_pos p) = 53) as H53 by lia. rewrite H53 in Hlo.
      change (2 ^ (53 - 1)) with 4503599627370496 in Hlo. lia.
    + lia.
    + exists m, e. split; [done | split; [done | lia]].
  - assert (is53 (Zpos (Pos.iter xO p k))) as Hm.
    { rewrite Pos_iter_xO. unfold is53.
      assert (Zpos k = 53 - Zpos (digits2_pos p)) as -> by lia.
      assert (4503599627370496
              = 2 ^ (Zpos (digits2_pos p) - 1) * 2 ^ (53 - Zpos (digits2_pos p))) as E52.
      { rewrite <-Z.pow_add_r by lia.
        by replace (Zpos (digits2_pos p) - 1 + (53 - Zpos (digits2_pos p))) with 52 by lia. }
      assert (9007199254740992
              = 2 ^ Zpos (digits2_pos p) * 2 ^ (53 - Zpos (digits2_pos p))) as E53.
      { rewrite <-Z.pow_add_r by lia.
        by replace (Zpos (digits2_pos p) + (53 - Zpos (digits2_pos p))) with 53 by lia. }
      assert (0 < 2 ^ (53 - Z.pos (digits2_pos p))) by (apply Z.pow_pos_nonneg; lia).
      rewrite E52, E53. nia. }
    destruct (binary_round_aux_normal (Zpos (Pos.iter xO p k))
                (Z.pos (digits2_pos p) + 0 - 53) loc_Exact)
      as (m & e & -> & Hm' & He); [unfold is53 in Hm; lia | lia |].
    exists m, e. split; [done | split; [done | lia]].
Qed.

(** The quotient of two normal floats is normal. *)
Lemma SFdiv_normal m1 e1 m2 e2 :
  is53 (Zpos m1) → is53 (Zpos m2) → -900 ≤ e1 - e2 ≤ 900 →
  ∃ m e, SFdiv 53 1024 (S754_finite false m1 e1) (S754_finite false m2 e2)
         = S754_finite false m e ∧
         is53 (Zpos m) ∧ e1 - e2 - 53 ≤ e ≤ e1 - e2 - 51.
Proof.
  intros H1 H2 He. cbn [SFdiv xorb]. unfold SFdiv_core_binary.
  cbn [Zdigits2]. rewrite !digits_53 by done.
  replace (53 + e1 - (53 + e2)) with (e1 - e2) by lia.
  rewrite fexp_binary64 by lia.
  replace (Z.min (e1 - e2 - 53) (e1 - e2)) with (e1 - e2 - 53) by lia.
  replace (e1 - e2 - (e1 - e2 - 53)) with 53 by lia.
  rewrite Z.shiftl_mul_pow2 by lia. change (2 ^ 53) with 9007199254740992.
  pose proof (Z_div_mod (Zpos m1 * 9007199254740992) (Zpos m2)) as Hdm.
  destruct (Z.div_eucl (Z.pos m1 * 9007199254740992) (Z.pos m2)) as [q r].
  destruct Hdm as [Heq Hr]; [lia |].
  assert (4503599627370496 ≤ q < 18014398509481984) as Hq.
  { unfold is53 in *. nia. }
  destruct (binary_round_aux_normal q (e1 - e2 - 53) (new_location (Zpos m2) r))
    as (m & e & -> & Hm & He'); [done | lia |].
  exists m, e. split; [done | split; [done | lia]].
Qed.

Lemma of_int_normal n :
  0 < n < 9007199254740992 →
  ∃ m e, PyFloat.of_int n = Ok (S754_finite false m e) ∧ is53 (Zpos m) ∧ -52 ≤ e ≤ 2.
Proof.
  intros Hn. unfold PyFloat.of_int, PyFloat.prec, PyFloat.emax.
  destruct (binary_normalize_normal n Hn) as (m & e & -> & Hm & He).
  by exists m, e.
Qed.

Lemma to_int_nonneg m e : ∃ a, PyFloat.to_int (S754_finite false m e) = Ok a ∧ 0 ≤ a.
Proof.
  unfold PyFloat.to_int. eexists. split; [done |].
  destruct e as [|k|k].
  - apply Z.shiftl_nonneg. lia.
  - apply Z.shiftl_nonneg. lia.
  - apply Z.shiftr_nonneg. lia.
Qed.

(** For dimensions below 2^53 the height computation returns, and its
    result is even and not negative. *)
Lemma scaled_height_total img_width img_height dest_width :
  0 < img_width < 9007199254740992 →
  0 < img_height < 9007199254740992 →
  0 < dest_width < 9007199254740992 →
  ∃ d, scaled_height img_width img_height dest_width = Ok d ∧ 0 ≤ d ∧ d `mod` 2 = 0.
Proof.
  intros Hw Hh Hd.
  destruct (of_int_normal img_width Hw) as (mw & ew & Ew & Hmw & Hew).
  destruct (of_int_normal img_height Hh) as (mh & eh & Eh & Hmh & Heh).
  destruct (of_int_normal dest_width Hd) as (md & ed & Ed & Hmd & Hed).
  destruct (SFdiv_normal mw ew md ed Hmw Hmd) as (ms & es & Es & Hms & Hes); [lia |].
  destruct (SFdiv_normal mh eh ms es Hmh Hms) as (mq & eq & Eq & Hmq & Heq); [lia |].
  destruct (to_int_nonneg mq eq) as (a & Ea & Ha).
  assert (scaled_height img_width img_height dest_width
          = Ok (if decide (a `mod` 2 ≠ 0) then a + 1 else a)) as Hs.
  { unfold scaled_height, PyFloat.int_truediv, PyFloat.int_float_truediv, PyFloat.truediv.
    destruct (decide (dest_width = 0)); [lia |].
    rewrite Ew, Ed, Eh. cbn [mbind result_bind].
    unfold PyFloat.prec, PyFloat.emax. rewrite Es. cbn [mbind result_bind PyFloat.is_zero].
    rewrite Eq. cbn [mbind result_bind]. by rewrite Ea. }
  eexists. split; [exact Hs |]. case_decide; zlia.
Qed.

(** ** C4: rows and cells of the rasterizer's output *)

Lemma resize_nearest_size img sz img' :
  resize_nearest img sz = Ok img' → size img' = sz.
Proof.
  unfold resize_nearest. destruct sz as [w h], (size img) as [w0 h0].
  case_decide; [done |]. by intros [= <-].
Qed.

Lemma resize_nearest_no_index_error img sz : resize_nearest img sz ≠ Raise IndexError.
Proof.
  unfold resize_nearest. destruct sz as [w h], (size img) as [w0 h0].
  by case_decide.
Qed.

Lemma resize_nearest_solid_rgb w h r g b sz img' :
  resize_nearest (solid w h r g b) sz = Ok img' → is_rgb img'.
Proof.
  unfold resize_nearest. destruct sz as [w' h']. cbn [size solid].
  case_decide; [done |]. intros [= <-] x y _ _. by exists r, g, b.
Qed.

(** C4 (as the code has it). For an image whose width and height are
    positive (and below 2^53), the height computation returns an even,
    non-negative adjusted height d: the quotient
    int(height / (width / 80)) of binary64 arithmetic, truncated (not
    rounded up) and bumped by one when odd. Whenever the resize delivers
    the 80 x d image of RGB pixels, the rasterizer returns a string made
    of d / 2 rows, each row being exactly 80 cells followed by a line
    break; these rows are its lines. *)
Theorem rasterizer_rows_of_80_cells
    (resize : Image → Z * Z → result Image) (img : Image) :
  0 < (size img).1 < 9007199254740992 →
  0 < (size img).2 < 9007199254740992 →
  ∃ d,
    scaled_height (size img).1 (size img).2 80 = Ok d ∧ 0 ≤ d ∧ d `mod` 2 = 0 ∧
    ∀ img',
      resize img (80, d) = Ok img' → size img' = (80, d) → is_rgb img' →
      ∃ rows,
        img_to_string resize img 80 true = Ok (render_rows rows) ∧
        splitlines (render_rows rows) = map (λ row, concat row) rows ∧
        length rows = Z.to_nat (d `div` 2) ∧
        Forall (λ row, length row = 80%nat ∧ Forall is_cell row) rows.
Proof.
  intros Hw Hh.
  destruct (scaled_height_total (size img).1 (size img).2 80 Hw Hh) as (d & Hd & Hd0 & Hd2);
    [lia |].
  exists d. split; [done |]. split; [done |]. split; [done |].
  intros img' Hr Hsize Hrgb.
  destruct (img_to_string_rows resize img img' 80 d Hd Hr Hsize Hrgb)
    as (Hout & Hlen & Hrows).
  eexists. split; [exact Hout |]. split; [| split; [exact Hlen | exact Hrows]].
  apply splitlines_render_rows. eapply Forall_impl; [exact Hrows |]. by intros row [_ ?].
Qed.

Lemma rasterizer_rows_of_80_cells_witness :
  ∃ rows,
    img_to_string resize_nearest Demo.photo 80 true = Ok (render_rows rows) ∧
    splitlines (render_rows rows) = map (λ row, concat row) rows ∧
    length rows = 1%nat ∧
    Forall (λ row, length row = 80%nat ∧ Forall is_cell row) rows.
Proof.
  destruct (rasterizer_rows_of_80_cells resize_nearest Demo.photo)
    as (d & Hd & _ & _ & Hrows).
  - vm_compute. split; reflexivity.
  - vm_compute. split; reflexivity.
  - assert (d = 2) as -> by (vm_compute in Hd; by injection Hd).
    destruct (resize_nearest Demo.photo (80, 2)) as [img'|e] eqn:Hr;
      [| by vm_compute in Hr].
    destruct (Hrows img' eq_refl) as (rows & H1 & H2 & H3 & H4).
    + by apply (resize_nearest_size Demo.photo).
    + by apply (resize_nearest_solid_rgb 160 5 10 20 30 (80, 2)).
    + exists rows. split; [exact H1 |]. split; [exact H2 |]. split; [exact H3 | exact H4].
Defined.

(** Rounding the quotient up does not describe the code. On a 160 x 5
    image the exact quotient 2.5 rounded up and bumped gives 4, hence 2
    lines, but the rasterizer truncates 2.5 to 2 and writes 1 row; and
    split at the line breaks the output has a second, empty piece, which
    holds no cell. *)
Lemma ceil_height_counterexample :
  ceil_adjusted_height 160 5 80 `div` 2 = 2 ∧
  ¬ (∃ out,
       img_to_string resize_nearest Demo.photo 80 true = Ok out ∧
       Z.of_nat (length (splitlines out)) = ceil_adjusted_height 160 5 80 `div` 2) ∧
  ¬ (∃ out,
       img_to_string resize_nearest Demo.photo 80 true = Ok out ∧
       Z.of_nat (length (split LF out)) = ceil_adjusted_height 160 5 80 `div` 2 ∧
       Forall (λ line, cell_count line = 80%nat) (split LF out)).
Proof.
  split; [reflexivity |]. split.
  - intros (out & Hout & Hlen). vm_compute in Hout. injection Hout as <-.
    vm_compute in Hlen. discriminate Hlen.
  - intros (out & Hout & _ & Hcells). vm_compute in Hout. injection Hout as <-.
    apply Forall_forall with (x := []) in Hcells; [by vm_compute in Hcells |].
    refine (bool_decide_unpack _ _). vm_compute. exact I.
Qed.

Lemma getpixel_never_out_of_bounds_witness :
  (∀ y x, y ∈ range 0 2 2 → x ∈ range 0 80 1 →
     ∀ img', resize_nearest Demo.photo (80, 2) = Ok img' →
       getpixel img' (x, y) = Ok (pixel img' x y) ∧
       getpixel img' (x, y + 1) = Ok (pixel img' x (y + 1))) ∧
  img_to_string resize_nearest Demo.photo 80 true ≠ Raise IndexError.
Proof.
  destruct (getpixel_never_out_of_bounds resize_nearest Demo.photo 80 true)
    as [Hin Hno].
  - apply resize_nearest_size.
  - apply resize_nearest_no_index_error.
  - split; [| exact Hno]. intros y x Hy Hx img' Hr.
    destruct (Hin 2 img' y x) as (_ & _ & _ & H1 & H2);
      [vm_compute; reflexivity | exact Hr | exact Hy | exact Hx |].
    split; [exact H1 | exact H2].
Defined.

(** * Further properties of the code *)

(** ** Runs of the handler, classified *)

Lemma after_ui_events {A} st (m : M A) :
  after st m = foldl apply_event st (ui_events (trace m)).
Proof.
  unfold after, ui_events. generalize (trace m) as tr. intros tr. revert st.
  induction tr as [|ev tr IH]; intros st; [done |].
  cbn [List.filter foldl]. destruct ev as [| | | | | | |[]|[]|[]|[]|]; cbn [is_ui foldl]; apply IH.
Qed.

Lemma ui_events_app tr1 tr2 : ui_events (tr1 ++ tr2) = ui_events tr1 ++ ui_events tr2.
Proof. apply List.filter_app. Qed.

Lemma on_code_view_classified w event :
  outcome (on_code_view w event) = Ok () ∧
  transition event (ui_events (trace (on_code_view w event))).
Proof.
  destruct (Syntax_from_path w (path event)) as [syntax|e] eqn:H.
  - rewrite (on_code_view_ok _ _ _ H). split; [done | apply to_code].
  - rewrite (on_code_view_raise _ _ _ H). split; [done | apply to_error].
Qed.

Lemma on_markdown_view_classified w event :
  outcome (on_markdown_view w event) = Ok () ∧
  transition event (ui_events (trace (on_markdown_view w event))).
Proof.
  destruct (file_text w (path event)) as [text|e] eqn:H.
  - destruct (Markdown_raises w (checkbox_markup text)) as [e|] eqn:H'.
    + rewrite (on_markdown_view_unrenderable _ _ _ _ H H'). split; [done | apply to_error].
    + rewrite (on_markdown_view_ok _ _ _ H H'). split; [done | apply to_markdown].
  - rewrite (on_markdown_view_unreadable _ _ _ H). split; [done | apply to_error].
Qed.

Lemma on_image_view_classified w event :
  outcome (on_image_view w event) = Ok () ∧
  transition event (ui_events (trace (on_image_view w event))).
Proof.
  destruct (Image_open w (path event)) as [image|e] eqn:H.
  - destruct (img_to_string (Image_resize w) image 80 true) as [image_view|e] eqn:H'.
    + rewrite (on_image_view_ok _ _ _ _ H H'). split; [done | apply to_image].
    + rewrite (on_image_view_unrasterizable _ _ _ _ H H'). split; [done | apply to_error].
  - rewrite (on_image_view_undecodable _ _ _ H). split; [done | apply to_error].
Qed.

(** The label branches: the label, or an exception before anything is
    shown. *)
Lemma label_classified w mime event :
  match outcome (render_as w mime event RawMimeLabel) with
  | Ok _ => ui_events (trace (render_as w mime event RawMimeLabel)) = label_events mime
  | Raise _ => ui_events (trace (render_as w mime event RawMimeLabel)) = []
  end.
Proof.
  unfold render_as, confirm_by_buffer, show_label.
  destruct (decide (mime = u "text/plain")) as [_|_]; [| done].
  destruct (file_bytes w (path event)) as [b|e]; [| done].
  change (Ok b ≫= λ b, Ok (take 2048 b)) with (Ok (take 2048 b)).
  rewrite bind_call_ok.
  by destruct (magic_from_buffer w (take 2048 b)).
Qed.

Lemma render_as_classified w mime event mode :
  match outcome (render_as w mime event mode) with
  | Ok _ => transition event (ui_events (trace (render_as w mime event mode)))
  | Raise _ => ui_events (trace (render_as w mime event mode)) = []
  end.
Proof.
  destruct mode.
  - destruct (on_code_view_classified w event) as [Ho Ht].
    cbn [render_as]. by rewrite Ho.
  - destruct (on_markdown_view_classified w event) as [Ho Ht].
    cbn [render_as]. by rewrite Ho.
  - destruct (on_image_view_classified w event) as [Ho Ht].
    cbn [render_as]. by rewrite Ho.
  - pose proof (label_classified w mime event) as H.
    destruct (outcome (render_as w mime event RawMimeLabel)); [| done].
    rewrite H. apply to_label.
Qed.

Lemma selection_classified w event :
  match outcome (on_directory_tree_file_selected w event) with
  | Ok _ => transition event (ui_events (trace (on_directory_tree_file_selected w event)))
  | Raise _ => ui_events (trace (on_directory_tree_file_selected w event)) = []
  end.
Proof.
  destruct (magic_from_file w (path event)) as [mime|e] eqn:Hm.
  - rewrite (dispatch_after_sniff _ _ _ Hm). cbn [outcome trace].
    apply (render_as_classified w mime event).
  - by rewrite (sniff_failure_leaves_handler _ _ _ Hm).
Qed.

Lemma filter_update_ui tr :
  List.filter is_update tr = List.filter is_update (ui_events tr).
Proof.
  unfold ui_events. induction tr as [|ev tr IH]; [done |].
  destruct ev; cbn [List.filter is_ui is_update]; by rewrite ?IH.
Qed.

Lemma filter_subtitle_ui tr :
  List.filter is_subtitle tr = List.filter is_subtitle (ui_events tr).
Proof.
  unfold ui_events. induction tr as [|ev tr IH]; [done |].
  destruct ev; cbn [List.filter is_ui is_subtitle]; by rewrite ?IH.
Qed.

(** X1. The three view handlers catch every exception of the calls they
    make: whatever the libraries and the file system do, each returns
    normally and has replaced the content of the pane exactly once and
    the subtitle exactly once. *)
Theorem view_handlers_never_raise (w : World) (event : FileSelected) :
  Forall (λ run : M unit,
            outcome run = Ok () ∧
            length (List.filter is_update (trace run)) = 1%nat ∧
            length (List.filter is_subtitle (trace run)) = 1%nat)
    [on_code_view w event; on_markdown_view w event; on_image_view w event].
Proof.
  assert (∀ run : M unit,
            outcome run = Ok () ∧ transition event (ui_events (trace run)) →
            outcome run = Ok () ∧
            length (List.filter is_update (trace run)) = 1%nat ∧
            length (List.filter is_subtitle (trace run)) = 1%nat) as Hcount.
  { intros run [Ho Ht]. split; [done |].
    rewrite filter_update_ui, filter_subtitle_ui. by destruct Ht. }
  constructor; [apply Hcount, on_code_view_classified |].
  constructor; [apply Hcount, on_markdown_view_classified |].
  constructor; [apply Hcount, on_image_view_classified | constructor].
Qed.

(** X2. A selection is all or nothing. When the handler returns, it has
    made exactly one of the five transitions, with one replacement of the
    content and one of the subtitle, and the new content and subtitle do
    not depend on the state before; when an exception leaves it, no event
    has touched the pane and the state is what it was. *)
Theorem selection_is_all_or_nothing (w : World) (event : FileSelected) :
  let run := on_directory_tree_file_selected w event in
  match outcome run with
  | Ok _ =>
      transition event (ui_events (trace run)) ∧
      length (List.filter is_update (trace run)) = 1%nat ∧
      length (List.filter is_subtitle (trace run)) = 1%nat ∧
      ∀ st1 st2,
        content (after st1 run) = content (after st2 run) ∧
        sub_title (after st1 run) = sub_title (after st2 run)
  | Raise _ => ui_events (trace run) = [] ∧ ∀ st, after st run = st
  end.
Proof.
  intros run. pose proof (selection_classified w event) as H. fold run in H.
  destruct (outcome run) as [[]|e].
  - split; [done |]. rewrite filter_update_ui, filter_subtitle_ui.
    split; [by destruct H |]. split; [by destruct H |].
    intros st1 st2. rewrite !after_ui_events. by destruct H.
  - split; [done |]. intros st. by rewrite after_ui_events, H.
Qed.

(** X3. The only exceptions that leave the handler are those of the path
    sniff and, for a text/plain file without extension, those of opening
    the file and of the buffer sniff. *)
Theorem exceptions_that_escape (w : World) (event : FileSelected) (e : Exc) :
  outcome (on_directory_tree_file_selected w event) = Raise e ↔
  magic_from_file w (path event) = Raise e ∨
  (magic_from_file w (path event) = Ok (u "text/plain") ∧
   extension_of event = None ∧
   (file_bytes w (path event) = Raise e ∨
    ∃ b, file_bytes w (path event) = Ok b ∧
         magic_from_buffer w (take 2048 b) = Raise e)).
Proof.
  destruct (magic_from_file w (path event)) as [mime|e'] eqn:Hm.
  - rewrite (dispatch_after_sniff _ _ _ Hm). cbn [outcome].
    destruct (select mime (extension_of event)) eqn:Hsel.
    + cbn [render_as]. rewrite (proj1 (on_code_view_classified w event)).
      split; [done |]. intros [? | ([= ->] & Hext & _)]; [done |].
      rewrite Hext, select_text_plain in Hsel. done.
    + cbn [render_as]. rewrite (proj1 (on_markdown_view_classified w event)).
      split; [done |]. intros [? | ([= ->] & Hext & _)]; [done |].
      rewrite Hext, select_text_plain in Hsel. done.
    + cbn [render_as]. rewrite (proj1 (on_image_view_classified w event)).
      split; [done |]. intros [? | ([= ->] & Hext & _)]; [done |].
      rewrite Hext, select_text_plain in Hsel. done.
    + unfold render_as, confirm_by_buffer, show_label.
      destruct (decide (mime = u "text/plain")) as [->|Hne].
      * assert (extension_of event = None) as Hext.
        { rewrite select_text_plain in Hsel.
          destruct (extension_of event) as [ext|]; [| done].
          by destruct (decide (ext = u "md")). }
        destruct (file_bytes w (path event)) as [b|e''] eqn:Hb.
        -- change (Ok b ≫= λ b, Ok (take 2048 b)) with (Ok (take 2048 b)).
           rewrite bind_call_ok.
           destruct (magic_from_buffer w (take 2048 b)) as [guess|e''] eqn:Hg.
           ++ split; [done |].
              intros [? | (_ & _ & [? | (b' & [= <-] & Hg')])]; try done.
              by rewrite Hg in Hg'.
           ++ split.
              ** intros [= ->]. right. repeat split; try done. right. by exists b.
              ** intros [? | (_ & _ & [? | (b' & [= <-] & Hg')])]; try done.
                 rewrite Hg in Hg'. by injection Hg' as ->.
        -- split.
           ++ intros [= ->]. right. repeat split; try done. by left.
           ++ intros [? | (_ & _ & [[= ->] | (b' & ? & _)])]; done.
      * split; [done |]. intros [? | ([= ->] & _)]; done.
  - rewrite (sniff_failure_leaves_handler _ _ _ Hm). cbn [outcome]. split.
    + intros [= ->]. by left.
    + intros [[= ->] | (? & _)]; done.
Qed.

(** ** Style classes across transitions *)

Lemma text_style_sets (vb pc : gset string) :
  "code-view" ∈ (vb ∪ {["code-view"]}) ∖ {["image-view"]} ∧
  ("image-view" ∉ (vb ∪ {["code-view"]}) ∖ {["image-view"]}) ∧
  ("image" ∉ pc ∖ {["image"]}) ∧
  (∀ c, c ≠ "code-view" → c ≠ "image-view" →
        (c ∈ (vb ∪ {["code-view"]}) ∖ {["image-view"]} ↔ c ∈ vb)) ∧
  (∀ c, c ≠ "image" → (c ∈ pc ∖ {["image"]} ↔ c ∈ pc)).
Proof.
  split; [| split; [| split; [| split]]].
  - rewrite elem_of_difference, elem_of_union, !elem_of_singleton.
    split; [by right | discriminate].
  - rewrite elem_of_difference, elem_of_singleton. by intros [_ H].
  - rewrite elem_of_difference, elem_of_singleton. by intros [_ H].
  - intros c Hc Hi. rewrite elem_of_difference, elem_of_union, !elem_of_singleton.
    split; [by intros [[?|?] _] | intros ?; split; [by left | done]].
  - intros c Hc. rewrite elem_of_difference, elem_of_singleton.
    split; [by intros [? _] | done].
Qed.

Lemma image_style_sets (vb pc : gset string) :
  "image-view" ∈ vb ∖ {["code-view"]} ∪ {["image-view"]} ∧
  ("code-view" ∉ vb ∖ {["code-view"]} ∪ {["image-view"]}) ∧
  "image" ∈ pc ∪ {["image"]} ∧
  (∀ c, c ≠ "code-view" → c ≠ "image-view" →
        (c ∈ vb ∖ {["code-view"]} ∪ {["image-view"]} ↔ c ∈ vb)) ∧
  (∀ c, c ≠ "image" → (c ∈ pc ∪ {["image"]} ↔ c ∈ pc)).
Proof.
  split; [| split; [| split; [| split]]].
  - rewrite elem_of_union, elem_of_singleton. by right.
  - rewrite elem_of_union, elem_of_difference, !elem_of_singleton.
    intros [[_ H]|H]; [by apply H | discriminate].
  - rewrite elem_of_union, elem_of_singleton. by right.
  - intros c Hc Hi. rewrite elem_of_union, elem_of_difference, !elem_of_singleton.
    split; [by intros [[? _]|?] | intros ?; by left].
  - intros c Hc. rewrite elem_of_union, elem_of_singleton.
    split; [by intros [?|?] | by left].
Qed.

(** The transition a successful selection makes is the one of its mode. *)
Lemma transition_of_mode w event st mime :
  magic_from_file w (path event) = Ok mime →
  outcome (on_directory_tree_file_selected w event) = Ok () →
  ¬ in_error_state (after st (on_directory_tree_file_selected w event)) →
  match select mime (extension_of event) with
  | CodeView =>
      ∃ syntax, ui_events (trace (on_directory_tree_file_selected w event))
                = code_view_events event syntax
  | MarkdownView =>
      ∃ markup, ui_events (trace (on_directory_tree_file_selected w event))
                = markdown_view_events event markup
  | ImageView =>
      ∃ image_view, ui_events (trace (on_directory_tree_file_selected w event))
                    = image_view_events event image_view
  | RawMimeLabel =>
      ui_events (trace (on_directory_tree_file_selected w event)) = label_events mime
  end.
Proof.
  intros Hm. rewrite after_ui_events, (dispatch_after_sniff _ _ _ Hm).
  cbn [outcome trace]. intros Hout Hne.
  assert (∀ tr e, ui_events tr = error_events e →
            ui_events (EvStop :: EvMagicFromFile (path event) :: tr) = error_events e)
    as Hpre by (by intros tr e <-).
  assert (∀ tr e, ui_events tr = error_events e →
            in_error_state
              (foldl apply_event st
                 (ui_events (EvStop :: EvMagicFromFile (path event) :: tr))))
    as Herr.
  { intros tr e He. rewrite (Hpre _ _ He). split; [by exists e | done]. }
  destruct (select mime (extension_of event)); cbn [render_as] in *.
  - destruct (Syntax_from_path w (path event)) as [syntax|e] eqn:H.
    + rewrite (on_code_view_ok _ _ _ H). by exists syntax.
    + rewrite (on_code_view_raise _ _ _ H) in Hne. exfalso. apply Hne.
      by apply Herr with e.
  - destruct (file_text w (path event)) as [text|e] eqn:H.
    + destruct (Markdown_raises w (checkbox_markup text)) as [e|] eqn:H'.
      * rewrite (on_markdown_view_unrenderable _ _ _ _ H H') in Hne. exfalso.
        apply Hne. by apply Herr with e.
      * rewrite (on_markdown_view_ok _ _ _ H H'). by exists (checkbox_markup text).
    + rewrite (on_markdown_view_unreadable _ _ _ H) in Hne. exfalso. apply Hne.
      by apply Herr with e.
  - destruct (Image_open w (path event)) as [image|e] eqn:H.
    + destruct (img_to_string (Image_resize w) image 80 true) as [image_view|e] eqn:H'.
      * rewrite (on_image_view_ok _ _ _ _ H H'). by exists image_view.
      * rewrite (on_image_view_unrasterizable _ _ _ _ H H') in Hne. exfalso.
        apply Hne. by apply Herr with e.
    + rewrite (on_image_view_undecodable _ _ _ H) in Hne. exfalso. apply Hne.
      by apply Herr with e.
  - pose proof (label_classified w mime event) as Hl. cbn [render_as] in Hl.
    rewrite Hout in Hl. change (ui_events (EvStop :: EvMagicFromFile (path event) :: ?t))
      with (ui_events t). exact Hl.
Qed.

(** X4. A successful code or markdown view leaves the pane in text
    layout and a successful image view in image layout, whatever classes
    were set before: code-view is set and the image classes are removed,
    or the reverse; classes of any other name are kept. A raw label keeps
    all classes and the scroll position as they were. *)
Theorem style_after_successful_selection
    (w : World) (event : FileSelected) (st : PreviewState) (mime : pystr) :
  magic_from_file w (path event) = Ok mime →
  outcome (on_directory_tree_file_selected w event) = Ok () →
  ¬ in_error_state (after st (on_directory_tree_file_selected w event)) →
  let st' := after st (on_directory_tree_file_selected w event) in
  match select mime (extension_of event) with
  | CodeView | MarkdownView =>
      "code-view" ∈ viewbox_classes st' ∧
      ("image-view" ∉ viewbox_classes st') ∧
      ("image" ∉ preview_classes st') ∧
      (∀ c, c ≠ "code-view" → c ≠ "image-view" →
            (c ∈ viewbox_classes st' ↔ c ∈ viewbox_classes st)) ∧
      (∀ c, c ≠ "image" → (c ∈ preview_classes st' ↔ c ∈ preview_classes st))
  | ImageView =>
      "image-view" ∈ viewbox_classes st' ∧
      ("code-view" ∉ viewbox_classes st') ∧
      "image" ∈ preview_classes st' ∧
      (∀ c, c ≠ "code-view" → c ≠ "image-view" →
            (c ∈ viewbox_classes st' ↔ c ∈ viewbox_classes st)) ∧
      (∀ c, c ≠ "image" → (c ∈ preview_classes st' ↔ c ∈ preview_classes st)) ∧
      scroll_y st' = scroll_y st
  | RawMimeLabel =>
      viewbox_classes st' = viewbox_classes st ∧
      preview_classes st' = preview_classes st ∧
      scroll_y st' = scroll_y st
  end.
Proof.
  intros Hm Hout Hne st'.
  pose proof (transition_of_mode w event st mime Hm Hout Hne) as Ht.
  subst st'. rewrite after_ui_events.
  destruct (select mime (extension_of event)).
  - destruct Ht as [syntax ->]. apply text_style_sets.
  - destruct Ht as [markup ->]. apply text_style_sets.
  - destruct Ht as [image_view ->].
    destruct (image_style_sets (viewbox_classes st) (preview_classes st))
      as (H1 & H2 & H3 & H4 & H5).
    exact (conj H1 (conj H2 (conj H3 (conj H4 (conj H5 eq_refl))))).
  - by rewrite Ht.
Qed.

(** X5. A preview that fails keeps the style classes and the scroll
    position of the state before: the traceback is shown in whatever
    layout the last successful view left. *)
Theorem failed_preview_keeps_style_and_scroll
    (w : World) (event : FileSelected) (st : PreviewState) :
  in_error_state (after st (on_directory_tree_file_selected w event)) →
  let st' := after st (on_directory_tree_file_selected w event) in
  viewbox_classes st' = viewbox_classes st ∧
  preview_classes st' = preview_classes st ∧
  scroll_y st' = scroll_y st.
Proof.
  intros Herr st'. subst st'. rewrite after_ui_events in *.
  pose proof (selection_classified w event) as H.
  destruct (outcome (on_directory_tree_file_selected w event)).
  - destruct H as [syntax|markup|image_view|mime|e]; try done;
      by destruct Herr as [[e He] _].
  - by rewrite H.
Qed.

(** ** The style invariant of a session *)

Lemma styled_classes c st :
  has_style c st →
  (∀ x, x ∈ viewbox_classes st → x = "code-view" ∨ x = "image-view") ∧
  (∀ x, x ∈ preview_classes st → x = "image").
Proof.
  destruct c; intros [-> ->]; split; intros x;
    rewrite ?elem_of_singleton; try (by intros ?%elem_of_empty); auto.
Qed.

Lemma text_config (vb pc : gset string) :
  (∀ x, x ∈ vb → x = "code-view" ∨ x = "image-view") →
  (∀ x, x ∈ pc → x = "image") →
  (vb ∪ {["code-view"]}) ∖ {["image-view"]} = {["code-view"]} ∧
  pc ∖ {["image"]} = ∅.
Proof.
  intros Hvb Hpc. split; apply set_eq; intros x.
  - rewrite elem_of_difference, elem_of_union, !elem_of_singleton. split.
    + intros [[Hx|Hx] Hne]; [| done]. by destruct (Hvb x Hx).
    + intros ->. split; [by right | discriminate].
  - rewrite elem_of_difference, elem_of_singleton. split.
    + intros [Hx Hne]. by destruct (Hne (Hpc x Hx)).
    + by intros ?%elem_of_empty.
Qed.

Lemma image_config (vb pc : gset string) :
  (∀ x, x ∈ vb → x = "code-view" ∨ x = "image-view") →
  (∀ x, x ∈ pc → x = "image") →
  vb ∖ {["code-view"]} ∪ {["image-view"]} = {["image-view"]} ∧
  pc ∪ {["image"]} = {["image"]}.
Proof.
  intros Hvb Hpc. split; apply set_eq; intros x.
  - rewrite elem_of_union, elem_of_difference, !elem_of_singleton. split.
    + intros [[Hx Hne]|Hx]; [| done]. by destruct (Hvb x Hx).
    + intros ->. by right.
  - rewrite elem_of_union, !elem_of_singleton. split.
    + intros [Hx|Hx]; [by apply Hpc | done].
    + intros ->. by right.
Qed.

Lemma style_configs_exclusive c st :
  has_style c st →
  ¬ ("code-view" ∈ viewbox_classes st ∧ "image-view" ∈ viewbox_classes st) ∧
  ("image" ∈ preview_classes st ↔ "image-view" ∈ viewbox_classes st).
Proof.
  destruct c; intros [-> ->]; rewrite ?elem_of_singleton.
  - split; [by intros [H1%elem_of_empty _] |].
    split; by intros H1%elem_of_empty.
  - split; [intros [_ H2]; discriminate H2 |].
    split; [by intros H1%elem_of_empty | intros H1; discriminate H1].
  - split; [intros [H1 _]; discriminate H1 | done].
Qed.

Lemma selection_keeps_style_config st w event c :
  has_style c st →
  (shows_text (content st) = true → has_style TextStyle st) →
  let st' := after st (on_directory_tree_file_selected w event) in
  (∃ c', has_style c' st') ∧
  (shows_text (content st') = true → has_style TextStyle st').
Proof.
  intros Hc Htext st'. subst st'. rewrite after_ui_events.
  pose proof (selection_classified w event) as H.
  destruct (styled_classes c st Hc) as [Hvb Hpc].
  destruct (outcome (on_directory_tree_file_selected w event)).
  - destruct H as [syntax|markup|image_view|mime|e].
    + assert (has_style TextStyle
                (foldl apply_event st (code_view_events event syntax))) as Ht
        by (by apply text_config).
      split; [by exists TextStyle | done].
    + assert (has_style TextStyle
                (foldl apply_event st (markdown_view_events event markup))) as Ht
        by (by apply text_config).
      split; [by exists TextStyle | done].
    + assert (has_style ImageStyle
                (foldl apply_event st (image_view_events event image_view))) as Hi
        by (by apply image_config).
      split; [by exists ImageStyle | done].
    + split; [by exists c; destruct c | done].
    + split; [by exists c; destruct c | done].
  - rewrite H. split; [by exists c | done].
Qed.

(** X6. In every state a session can reach, the style classes are in one
    of three configurations: none set (before the first successful
    view), text layout (code-view alone), or image layout (image-view and
    image together); code-view and image-view are never both set; and
    highlighted code or rendered markdown is only ever on display in text
    layout. *)
Theorem reachable_style_invariant (st : PreviewState) :
  reachable st →
  (∃ c, has_style c st) ∧
  (shows_text (content st) = true → has_style TextStyle st) ∧
  ¬ ("code-view" ∈ viewbox_classes st ∧ "image-view" ∈ viewbox_classes st) ∧
  ("image" ∈ preview_classes st ↔ "image-view" ∈ viewbox_classes st).
Proof.
  intros Hreach.
  assert ((∃ c, has_style c st) ∧
          (shows_text (content st) = true → has_style TextStyle st))
    as [[c Hc] Htext].
  { induction Hreach as [|st w event _ [[c Hc] Htext]].
    - split; [by exists NoStyle | done].
    - by apply (selection_keeps_style_config st w event c). }
  split; [by exists c |]. split; [done |].
  by apply (style_configs_exclusive c).
Qed.

(** ** Base names and extensions *)

Lemma after_last_no_sep c s : c ∉ s → after_last c s = s.
Proof.
  induction s as [|a s IH]; [done |]. intros [Ha Hs]%not_elem_of_cons.
  cbn [after_last]. rewrite bool_decide_eq_false_2 by done.
  destruct (decide (a = c)); [congruence | done].
Qed.

Lemma after_last_app c s t : c ∉ t → after_last c (s ++ c :: t) = t.
Proof.
  intros Ht. induction s as [|a s IH]; cbn [app after_last].
  - rewrite bool_decide_eq_false_2 by done. by destruct (decide (c = c)).
  - rewrite bool_decide_eq_true_2; [done |].
    apply elem_of_app. right. by left.
Qed.

Lemma after_last_free c s : c ∉ after_last c s.
Proof.
  induction s as [|a s IH]; cbn [after_last]; [apply not_elem_of_nil |].
  case_bool_decide as Hin; [done |].
  destruct (decide (a = c)); [done |]. by apply not_elem_of_cons.
Qed.

Lemma split_length_sep sep s : sep ∈ s → (1 < length (split sep s))%nat.
Proof.
  intros (l1 & l2 & -> & Hl1)%list_elem_of_split_l.
  rewrite split_app_sep by done.
  destruct (split_cons sep l2) as (p & ps & ->). simpl. lia.
Qed.

Lemma split_pieces_free sep s p : p ∈ split sep s → sep ∉ p.
Proof.
  revert p. induction s as [|c s IH]; intros p; cbn [split].
  - intros ->%list_elem_of_singleton. apply not_elem_of_nil.
  - destruct (decide (c = sep)) as [->|Hc].
    + intros [->|Hp]%elem_of_cons; [apply not_elem_of_nil | by apply IH].
    + destruct (split_cons sep s) as (q & qs & Hq). rewrite Hq in *.
      intros [->|Hp]%elem_of_cons.
      * apply not_elem_of_cons. split; [done |]. apply IH. by left.
      * apply IH. by right.
Qed.

(** X7. The directories of a path play no part: the base name is what
    follows the last slash and never contains one, so dots in directory
    names do not give a file an extension. *)
Theorem basename_drops_directories (dir name : pystr) :
  SLASH ∉ name →
  basename (dir ++ SLASH :: name) = name ∧
  basename name = name ∧
  extension_of {| path := dir ++ SLASH :: name |} = extension_of {| path := name |} ∧
  ∀ p, SLASH ∉ basename p.
Proof.
  intros Hn. unfold extension_of, basename. cbn [path].
  rewrite after_last_app, after_last_no_sep by done.
  repeat split. intros p. apply after_last_free.
Qed.

(** X8. A file counts as having an extension exactly when its base name
    contains a dot; the extension itself never contains one, and it is
    empty when the first dot is the last character or is followed by
    another dot. *)
Theorem extension_exists_iff_dot (event : FileSelected) :
  (extension_of event = None ↔ DOT ∉ basename (path event)) ∧
  (∀ ext, extension_of event = Some ext → DOT ∉ ext) ∧
  (∀ stem more,
     basename (path event) = stem ++ DOT :: more → DOT ∉ stem →
     (more = [] ∨ ∃ more', more = DOT :: more') →
     extension_of event = Some []).
Proof.
  split; [| split].
  - split; [| apply extension_of_none].
    intros Hnone Hdot. apply (split_length_sep DOT) in Hdot.
    unfold extension_of in Hnone.
    destruct (decide (1 < length (split DOT (basename (path event))))%nat); [| done].
    apply lookup_lt_is_Some_2 in Hdot as [x Hx]. by rewrite Hx in Hnone.
  - intros ext He. unfold extension_of in He. case_decide; [| done].
    apply (split_pieces_free DOT (basename (path event))).
    by apply list_elem_of_lookup_2 in He.
  - intros stem more Hb Hs Hm. rewrite (extension_of_dotted _ _ _ Hb Hs).
    by destruct Hm as [-> | [more' ->]].
Qed.

(** ** The check-box substitution: what it leaves and what it keeps *)

Lemma box_free_cons c t :
  strip_prefix (u "-[ ]") (c :: t) = None →
  strip_prefix (u "-[x]") (c :: t) = None →
  box_free t → box_free (c :: t).
Proof. intros H1 H2 Ht [|i]; [done | apply (Ht i)]. Qed.

Lemma box_free_tail c t : box_free (c :: t) → box_free t.
Proof. intros H i. apply (H (S i)). Qed.

(** A text without hyphen found behind the substitution was there before. *)
Lemma subst_reflects q s t t' :
  checkbox_subst s t → HYPHEN ∉ q → strip_prefix q t = Some t' →
  ∃ s', strip_prefix q s = Some s'.
Proof.
  intros Hsub. revert q t'.
  induction Hsub as [|s t _ _|s t _ _|c s t _ _ _ IH]; intros q t' Hq Ht;
    destruct q as [|a q]; try (by eexists);
    apply not_elem_of_cons in Hq as [Ha Hq].
  - change (u "- " ++ [BALLOT_BOX] ++ t) with (HYPHEN :: 32%N :: BALLOT_BOX :: t) in Ht.
    cbn [strip_prefix] in Ht.
    destruct (decide (a = HYPHEN)) as [->|]; [by exfalso; apply Ha | done].
  - change (u "- " ++ [BALLOT_BOX_WITH_X] ++ t)
      with (HYPHEN :: 32%N :: BALLOT_BOX_WITH_X :: t) in Ht.
    cbn [strip_prefix] in Ht.
    destruct (decide (a = HYPHEN)) as [->|]; [by exfalso; apply Ha | done].
  - cbn [strip_prefix] in *. destruct (decide (a = c)); [| done]. by eapply IH.
Qed.

Lemma subst_box_free s t : checkbox_subst s t → box_free t.
Proof.
  assert (HYPHEN ∉ u "[ ]") as Hu by (refine (bool_decide_unpack _ _); vm_compute; exact I).
  assert (HYPHEN ∉ u "[x]") as Hc by (refine (bool_decide_unpack _ _); vm_compute; exact I).
  induction 1 as [|s t _ IH|s t _ IH|c s t Hnu Hnc Hsub IH].
  - by intros [|i].
  - intros [|[|[|i]]]; [done | done | done | apply (IH i)].
  - intros [|[|[|i]]]; [done | done | done | apply (IH i)].
  - apply box_free_cons; [| | done].
    + destruct (strip_prefix (u "-[ ]") (c :: t)) as [t'|] eqn:Ht; [| done].
      exfalso. change (u "-[ ]") with (HYPHEN :: u "[ ]") in *.
      cbn [strip_prefix] in *. destruct (decide (HYPHEN = c)); [| done].
      destruct (subst_reflects _ _ _ _ Hsub Hu Ht) as [s' Hs']. by rewrite Hs' in Hnu.
    + destruct (strip_prefix (u "-[x]") (c :: t)) as [t'|] eqn:Ht; [| done].
      exfalso. change (u "-[x]") with (HYPHEN :: u "[x]") in *.
      cbn [strip_prefix] in *. destruct (decide (HYPHEN = c)); [| done].
      destruct (subst_reflects _ _ _ _ Hsub Hc Ht) as [s' Hs']. by rewrite Hs' in Hnc.
Qed.

Lemma box_free_subst t : box_free t → checkbox_subst t t.
Proof.
  induction t as [|c t IH]; intros Hfree; [constructor |].
  destruct (Hfree 0%nat) as [H1 H2].
  apply subst_keep; [done | done |]. apply IH. by eapply box_free_tail.
Qed.

(** X9. The markup handed to the renderer contains neither -[ ] nor
    -[x] any more, at any position, and substituting a second time
    changes nothing. *)
Theorem checkbox_markup_leaves_no_box (text : pystr) :
  box_free (checkbox_markup text) ∧
  checkbox_markup (checkbox_markup text) = checkbox_markup text.
Proof.
  assert (box_free (checkbox_markup text)) as Hfree.
  { apply (subst_box_free text), checkbox_markup_subst. }
  split; [done |]. symmetry.
  apply (checkbox_subst_functional (checkbox_markup text));
    [by apply box_free_subst | apply checkbox_markup_subst].
Qed.

(** X10. A text in which neither pattern occurs is handed to the renderer
    unchanged: only the exact spellings -[ ] and -[x] are rewritten. *)
Theorem checkbox_markup_keeps_other_text (text : pystr) :
  box_free text → checkbox_markup text = text.
Proof.
  intros Hfree. symmetry.
  apply (checkbox_subst_functional text);
    [by apply box_free_subst | apply checkbox_markup_subst].
Qed.

(** ** The rasterizer: plain mode and failures *)

Lemma emit_cell_plain img y x out :
  0 ≤ x < (size img).1 → 0 ≤ y < (size img).2 →
  (∃ r g b, pixel img x y = PxTuple [r; g; b]) →
  emit_cell img false y x out = Ok (out ++ plain_cell_at img y x).
Proof.
  intros Hx Hy (r & g & b & Hp). unfold emit_cell, plain_cell_at.
  rewrite getpixel_inside by lia. by rewrite Hp.
Qed.

(** X11. Without unicode the rasterizer writes one cell per column for
    every second row of the resized image and never reads the rows in
    between: the output is d / 2 rows of dest_width cells built from the
    pixels of rows 0, 2, 4, ... alone, whatever the odd rows hold. *)
Theorem plain_rasterizer_reads_even_rows
    (resize : Image → Z * Z → result Image) (img img' : Image) (dest_width d : Z) :
  scaled_height (size img).1 (size img).2 dest_width = Ok d →
  resize img (dest_width, d) = Ok img' →
  size img' = (dest_width, d) →
  is_rgb_on_even_rows img' →
  let rows := map (λ y, map (plain_cell_at img' y) (range 0 dest_width 1)) (range 0 d 2) in
  img_to_string resize img dest_width false = Ok (render_rows rows) ∧
  length rows = Z.to_nat (d `div` 2) ∧
  Forall (λ row, length row = Z.to_nat dest_width) rows.
Proof.
  intros Hd Hr Hsize Hrgb rows.
  pose proof (scaled_height_even _ _ _ _ Hd) as Heven.
  split; [| split].
  - unfold img_to_string. destruct (size img) as [img_width img_height].
    simpl in Hd. rewrite Hd. cbn [mbind result_bind]. rewrite Hr.
    cbn [mbind result_bind].
    rewrite (for_each_appends _
               (λ y, concat (map (plain_cell_at img' y) (range 0 dest_width 1)) ++ [LF])).
    + unfold render_rows, rows. by rewrite map_map.
    + intros y out Hy.
      rewrite (for_each_appends _ (plain_cell_at img' y)).
      * cbn [mbind result_bind]. by rewrite app_assoc.
      * intros x out' Hx.
        apply elem_of_range_rows in Hy. apply elem_of_range_columns in Hx.
        apply emit_cell_plain; rewrite ?Hsize; cbn [fst snd]; [zlia | zlia |].
        apply Hrgb; rewrite ?Hsize; cbn [fst snd]; zlia.
  - unfold rows. rewrite length_map. by apply length_range_rows.
  - unfold rows. apply Forall_forall. intros row (y & -> & Hy)%list_elem_of_fmap.
    by rewrite length_map, length_range_columns.
Qed.

Lemma range_starts_at_zero stop step :
  0 < stop → 0 < step → ∃ rest, range 0 stop step = 0 :: rest.
Proof.
  intros Hstop Hstep. unfold range.
  assert (0 < (stop - 0 + step - 1) `div` step) as Hn.
  { apply Z.div_str_pos. lia. }
  destruct (Z.to_nat ((stop - 0 + step - 1) `div` step)) as [|n] eqn:E; [lia |].
  cbn [seq map]. eexists. f_equal. lia.
Qed.

Lemma first_pixel_decides
    (resize : Image → Z * Z → result Image) (img img' : Image)
    (dest_width d : Z) (unicode : bool) :
  scaled_height (size img).1 (size img).2 dest_width = Ok d →
  resize img (dest_width, d) = Ok img' →
  size img' = (dest_width, d) →
  0 < dest_width → 0 < d →
  img_to_string resize img dest_width unicode
  = match pixel img' 0 0 with
    | PxTuple [_; _; _] => img_to_string resize img dest_width unicode
    | PxTuple _ => Raise ValueError
    | PxNumber => Raise TypeError
    end.
Proof.
  intros Hd Hr Hsize Hw Hpos.
  destruct (pixel img' 0 0) as [bands|] eqn:Hp.
  - destruct bands as [|r [|g [|b [|a bands]]]]; try done;
      unfold img_to_string; destruct (size img) as [img_width img_height];
      simpl in Hd; rewrite Hd; cbn [mbind result_bind]; rewrite Hr;
      cbn [mbind result_bind];
      destruct (range_starts_at_zero d 2) as [ys ->]; try lia;
      destruct (range_starts_at_zero dest_width 1) as [xs ->]; try lia;
      cbn [for_each]; unfold emit_cell;
      rewrite (getpixel_inside img' 0 0) by (rewrite Hsize; cbn [fst snd]; lia);
      rewrite Hp; by destruct unicode.
  - unfold img_to_string. destruct (size img) as [img_width img_height].
    simpl in Hd. rewrite Hd. cbn [mbind result_bind]. rewrite Hr.
    cbn [mbind result_bind].
    destruct (range_starts_at_zero d 2) as [ys ->]; try lia.
    destruct (range_starts_at_zero dest_width 1) as [xs ->]; try lia.
    cbn [for_each]. unfold emit_cell.
    rewrite (getpixel_inside img' 0 0) by (rewrite Hsize; cbn [fst snd]; lia).
    rewrite Hp. by destruct unicode.
Qed.

(** X12. A resized image whose first pixel is not a triple cannot be
    rasterized: four bands (RGBA) or any other number of bands raise
    ValueError at the first cell, a plain number (a single-band mode)
    raises TypeError, in both modes. *)
Theorem rasterizer_needs_three_bands
    (resize : Image → Z * Z → result Image) (img img' : Image)
    (dest_width d : Z) (unicode : bool) :
  scaled_height (size img).1 (size img).2 dest_width = Ok d →
  resize img (dest_width, d) = Ok img' →
  size img' = (dest_width, d) →
  0 < dest_width → 0 < d →
  (∀ bands, pixel img' 0 0 = PxTuple bands → length bands ≠ 3%nat →
            img_to_string resize img dest_width unicode = Raise ValueError) ∧
  (pixel img' 0 0 = PxNumber →
   img_to_string resize img dest_width unicode = Raise TypeError).
Proof.
  intros Hd Hr Hsize Hw Hpos.
  pose proof (first_pixel_decides resize img img' dest_width d unicode
                Hd Hr Hsize Hw Hpos) as H.
  split.
  - intros bands Hp Hlen. rewrite Hp in H.
    by destruct bands as [|r [|g [|b [|a bands]]]].
  - intros Hp. by rewrite Hp in H.
Qed.

(** ** Exact binary64 results *)

Lemma shr_fexp_53 m e l :
  is53 (Zpos m) → -1074 ≤ e →
  shr_fexp 53 1024 (Zpos m) e l = (shr_record_of_loc (Zpos m) l, e).
Proof.
  intros Hm He. unfold shr_fexp. cbn [Zdigits2].
  rewrite digits_53 by done. rewrite fexp_binary64 by lia.
  by replace (53 + e - 53 - e) with 0 by lia.
Qed.

Lemma binary_round_aux_exact53 m e :
  is53 (Zpos m) → -1074 ≤ e ≤ 971 →
  binary_round_aux 53 1024 false (Zpos m) e loc_Exact = S754_finite false m e.
Proof.
  intros Hm He. unfold binary_round_aux.
  rewrite shr_fexp_53 by (done || lia).
  cbn [shr_record_of_loc shr_m loc_of_shr_record round_nearest_even].
  rewrite shr_fexp_53 by (done || lia). cbn [shr_record_of_loc shr_m].
  destruct (Z.leb_spec e (1024 - 53)); [done | lia].
Qed.

Lemma binary_round_aux_exact54 m e :
  is53 (Zpos m) → -1074 ≤ e ≤ 970 →
  binary_round_aux 53 1024 false (Zpos m~0) e loc_Exact = S754_finite false m (e + 1).
Proof.
  intros Hm He. unfold binary_round_aux.
  assert (shr_fexp 53 1024 (Zpos m~0) e loc_Exact
          = ({| shr_m := Zpos m; shr_r := false; shr_s := false |}, e + 1)) as ->.
  { unfold shr_fexp. cbn [Zdigits2]. rewrite digits_54 by (unfold is53 in Hm; lia).
    rewrite fexp_binary64 by lia. by replace (54 + e - 53 - e) with 1 by lia. }
  cbn [shr_m loc_of_shr_record round_nearest_even].
  rewrite shr_fexp_53 by (done || lia). cbn [shr_record_of_loc shr_m].
  destruct (Z.leb_spec (e + 1) (1024 - 53)); [done | lia].
Qed.

(** An [int] between 1 and 2^53 converts exactly. *)
Lemma of_int_exact n :
  0 < n < 9007199254740992 →
  ∃ m e, PyFloat.of_int n = Ok (S754_finite false m e) ∧
         is53 (Zpos m) ∧ -52 ≤ e ≤ 0 ∧ Zpos m = n * 2 ^ (- e).
Proof.
  intros Hn. unfold PyFloat.of_int, PyFloat.prec, PyFloat.emax.
  destruct n as [|p|p]; [lia | | lia].
  cbn [binary_normalize]. unfold binary_round.
  pose proof (digits2_pos_bounds p) as [Hlo Hhi].
  assert (0 < Zpos (digits2_pos p) ≤ 53) as Hd.
  { split; [lia |]. destruct (decide (Zpos (digits2_pos p) ≤ 53)); [done |].
    assert (2 ^ 53 ≤ 2 ^ (Zpos (digits2_pos p) - 1)) by (apply Z.pow_le_mono_r; lia).
    change (2 ^ 53) with 9007199254740992 in *. lia. }
  rewrite fexp_binary64 by lia. unfold shl_align.
  replace (Z.pos (digits2_pos p) + 0 - 53 - 0) with (Z.pos (digits2_pos p) - 53) by lia.
  destruct (Z.pos (digits2_pos p) - 53) as [|k|k] eqn:Hk; [| lia |].
  - assert (is53 (Zpos p)) as Hm.
    { assert (Z.pos (digits2_pos p) = 53) as H53 by lia. rewrite H53 in Hlo, Hhi.
      change (2 ^ (53 - 1)) with 4503599627370496 in Hlo.
      change (2 ^ 53) with 9007199254740992 in Hhi. by split. }
    rewrite binary_round_aux_exact53 by (done || lia).
    exists p, 0. repeat split; try lia; apply Hm.
  - assert (Zpos k = 53 - Zpos (digits2_pos p)) as Ek by lia.
    assert (is53 (Zpos (Pos.iter xO p k))) as Hm.
    { rewrite Pos_iter_xO, Ek. unfold is53.
      assert (4503599627370496
              = 2 ^ (Zpos (digits2_pos p) - 1) * 2 ^ (53 - Zpos (digits2_pos p))) as E52.
      { rewrite <-Z.pow_add_r by lia.
        by replace (Zpos (digits2_pos p) - 1 + (53 - Zpos (digits2_pos p))) with 52 by lia. }
      assert (9007199254740992
              = 2 ^ Zpos (digits2_pos p) * 2 ^ (53 - Zpos (digits2_pos p))) as E53.
      { rewrite <-Z.pow_add_r by lia.
        by replace (Zpos (digits2_pos p) + (53 - Zpos (digits2_pos p))) with 53 by lia. }
      assert (0 < 2 ^ (53 - Z.pos (digits2_pos p))) by (apply Z.pow_pos_nonneg; lia).
      rewrite E52, E53. nia. }
    rewrite binary_round_aux_exact53 by (done || lia).
    eexists _, _. split; [done |]. split; [done |]. split; [lia |].
    rewrite Pos_iter_xO. f_equal. f_equal. lia.
Qed.

(** A quotient that is twice a 53-digit integer is returned exactly. *)
Lemma SFdiv_exact m1 e1 m2 e2 m :
  is53 (Zpos m1) → is53 (Zpos m2) → is53 (Zpos m) →
  Zpos m1 * 9007199254740992 = 2 * Zpos m * Zpos m2 →
  -900 ≤ e1 - e2 ≤ 900 →
  SFdiv 53 1024 (S754_finite false m1 e1) (S754_finite false m2 e2)
  = S754_finite false m (e1 - e2 - 52).
Proof.
  intros H1 H2 Hm Heq He. cbn [SFdiv xorb]. unfold SFdiv_core_binary.
  cbn [Zdigits2]. rewrite !digits_53 by done.
  replace (53 + e1 - (53 + e2)) with (e1 - e2) by lia.
  rewrite fexp_binary64 by lia.
  replace (Z.min (e1 - e2 - 53) (e1 - e2)) with (e1 - e2 - 53) by lia.
  replace (e1 - e2 - (e1 - e2 - 53)) with 53 by lia.
  rewrite Z.shiftl_mul_pow2 by lia. change (2 ^ 53) with 9007199254740992.
  pose proof (Z_div_mod (Zpos m1 * 9007199254740992) (Zpos m2)) as Hdm.
  destruct (Z.div_eucl (Z.pos m1 * 9007199254740992) (Z.pos m2)) as [q r].
  destruct Hdm as [Hq Hr]; [lia |].
  assert (q = Zpos m~0 ∧ r = 0) as [-> ->].
  { rewrite Pos2Z.inj_xO.
    apply (Z.div_mod_unique (Zpos m2)); [lia | lia | lia]. }
  assert (new_location (Zpos m2) 0 = loc_Exact) as ->.
  { unfold new_location, new_location_even, new_location_odd.
    by destruct (Z.even (Z.pos m2)). }
  rewrite binary_round_aux_exact54 by (done || lia). f_equal. lia.
Qed.

Lemma to_int_exact n m e :
  0 < n → e ≤ 0 → Zpos m = n * 2 ^ (- e) →
  PyFloat.to_int (S754_finite false m e) = Ok n.
Proof.
  intros Hn He Hm. unfold PyFloat.to_int. f_equal.
  destruct e as [|k|k]; [| lia |].
  - rewrite Z.shiftl_0_r, Hm. simpl. lia.
  - rewrite Z.shiftr_div_pow2 by lia. rewrite Hm.
    change (- Z.neg k) with (Z.pos k). apply Z.div_mul.
    apply Z.pow_nonzero; lia.
Qed.

(** X13. An image that is already dest_width wide keeps its height: the
    scale is exactly 1.0, the quotient exactly the height, and the only
    adjustment is the bump of an odd height to the next even number. *)
Theorem same_width_keeps_height (width img_height : Z) :
  0 < width < 9007199254740992 →
  0 < img_height < 9007199254740992 →
  scaled_height width img_height width
  = Ok (if decide (img_height `mod` 2 ≠ 0) then img_height + 1 else img_height).
Proof.
  intros Hw Hh.
  destruct (of_int_exact width Hw) as (mw & ew & Ew & Hmw & Hew & _).
  destruct (of_int_exact img_height Hh) as (mh & eh & Eh & Hmh & Heh & Hval).
  assert (is53 (Zpos 4503599627370496)) as Hone by (unfold is53; lia).
  unfold scaled_height, PyFloat.int_truediv, PyFloat.int_float_truediv, PyFloat.truediv.
  destruct (decide (width = 0)); [lia |].
  rewrite Ew, Eh. cbn [mbind result_bind]. unfold PyFloat.prec, PyFloat.emax.
  rewrite (SFdiv_exact mw ew mw ew 4503599627370496) by (done || lia).
  cbn [mbind result_bind PyFloat.is_zero].
  rewrite (SFdiv_exact mh eh 4503599627370496 (ew - ew - 52) mh) by (done || lia).
  replace (eh - (ew - ew - 52) - 52) with eh by lia.
  by rewrite (to_int_exact img_height mh eh) by (lia || done).
Qed.

(** X14. An image of width 0 cannot be rasterized: the scale is 0.0 and
    dividing the height by it raises ZeroDivisionError, before any resize;
    so does a destination width of 0, for every image. *)
Theorem zero_width_raises_zero_division
    (resize : Image → Z * Z → result Image) (img : Image)
    (dest_width : Z) (unicode : bool) :
  (0 ≤ (size img).2 < 9007199254740992 →
   0 < dest_width < 9007199254740992 →
   (size img).1 = 0 →
   img_to_string resize img dest_width unicode = Raise ZeroDivisionError) ∧
  img_to_string resize img 0 unicode = Raise ZeroDivisionError.
Proof.
  unfold img_to_string. destruct (size img) as [img_width img_height]. cbn [fst snd].
  split; [| done].
  intros Hh Hd ->.
  destruct (of_int_normal dest_width Hd) as (md & ed & Ed & _ & _).
  assert (scaled_height 0 img_height dest_width = Raise ZeroDivisionError) as ->; [| done].
  unfold scaled_height, PyFloat.int_truediv, PyFloat.int_float_truediv, PyFloat.truediv.
  destruct (decide (dest_width = 0)); [lia |].
  rewrite Ed. change (PyFloat.of_int 0) with (Ok (S754_zero false) : result PyFloat.float).
  cbn [mbind result_bind SFdiv xorb].
  destruct (decide (img_height = 0)) as [->|Hne].
  - done.
  - destruct (of_int_normal img_height) as (mh & eh & -> & _ & _); [lia | done].
Qed.

(** ** The widget tree and the look-ups of the handlers *)

(** X15. [compose] never fails, whatever the command line. The tree is
    rooted at the first argument when there is one (as given, further
    arguments being ignored) and at the working directory otherwise; and
    in the tree it builds every look-up of the handlers has exactly one
    match: "#code" is a Static, its parent is the VerticalScroll that
    "#code-view" finds, so [preview.parent] and [query_one("#code-view")]
    are the same widget, and there is one DirectoryTree for [on_mount] to
    focus. *)
Theorem compose_tree_lookups (argv : list pystr) (cwd : pystr) :
  ∃ dom path,
    compose argv cwd = Ok dom ∧
    path = match argv with _ :: arg :: _ => arg | _ => cwd end ∧
    let preview := Mounted (Static true) (Some "code") [] in
    let viewbox := Mounted VerticalScroll (Some "code-view") [preview] in
    query_id "code" dom = [preview] ∧
    query_id "code-view" dom = [viewbox] ∧
    parents_of "code" dom = [viewbox] ∧
    query_directory_tree dom = [Mounted (DirectoryTree path) (Some "tree-view") []].
Proof.
  unfold compose.
  destruct argv as [|prog [|arg rest]]; cbn [length getitem];
    (destruct (decide (_ < 2)%nat) as [Hl|Hl]; cbn in Hl; try lia);
    eexists _, _; (split; [reflexivity |]); (split; [reflexivity |]);
    repeat split; vm_compute; reflexivity.
Qed.

(** ** The properties above at concrete inputs *)

Lemma style_after_successful_selection_witness :
  let w := Demo.world [] in
  let photo := Demo.select_file "/d/photo.png" in
  let page := Demo.select_file "/d/page.html" in
  let st1 := after initial_state (on_directory_tree_file_selected w photo) in
  let st2 := after st1 (on_directory_tree_file_selected w page) in
  ("image-view" ∈ viewbox_classes st1 ∧ "image" ∈ preview_classes st1) ∧
  ("code-view" ∈ viewbox_classes st2 ∧ ("image-view" ∉ viewbox_classes st2) ∧
   ("image" ∉ preview_classes st2)).
Proof.
  intros w photo page st1 st2. split.
  - pose proof (style_after_successful_selection w photo initial_state (u "image/png"))
      as H.
    specialize (H eq_refl).
    assert (outcome (on_directory_tree_file_selected w photo) = Ok ()) as H2
      by (vm_compute; reflexivity).
    assert (¬ in_error_state (after initial_state (on_directory_tree_file_selected w photo)))
      as H3.
    { intros [[e He] _]. vm_compute in He. discriminate. }
    destruct (H H2 H3) as (Ha & _ & Hb & _). split; [exact Ha | exact Hb].
  - pose proof (style_after_successful_selection w page st1 (u "text/html")) as H.
    specialize (H eq_refl).
    assert (outcome (on_directory_tree_file_selected w page) = Ok ()) as H2
      by (vm_compute; reflexivity).
    assert (¬ in_error_state (after st1 (on_directory_tree_file_selected w page))) as H3.
    { intros [[e He] _]. rewrite after_ui_events in He.
      assert (ui_events (trace (on_directory_tree_file_selected w page))
              = code_view_events page (u "<p>")) as E by (vm_compute; reflexivity).
      rewrite E in He. discriminate He. }
    destruct (H H2 H3) as (Ha & Hb & Hc & _). split; [exact Ha | split; [exact Hb | exact Hc]].
Defined.

Lemma failed_preview_keeps_style_and_scroll_witness :
  let w := Demo.world [] in
  let photo := Demo.select_file "/d/photo.png" in
  let tool := Demo.select_file "/d/tool" in
  let st1 := after initial_state (on_directory_tree_file_selected w photo) in
  let st2 := after st1 (on_directory_tree_file_selected w tool) in
  in_error_state st2 ∧
  viewbox_classes st2 = viewbox_classes st1 ∧
  preview_classes st2 = preview_classes st1 ∧
  scroll_y st2 = scroll_y st1.
Proof.
  intros w photo tool st1 st2.
  assert (in_error_state st2) as Herr.
  { subst st2. rewrite after_ui_events.
    assert (ui_events (trace (on_directory_tree_file_selected w tool))
            = error_events UnicodeDecodeError) as E by (vm_compute; reflexivity).
    rewrite E. split; [by exists UnicodeDecodeError | done]. }
  split; [exact Herr |].
  exact (failed_preview_keeps_style_and_scroll w tool st1 Herr).
Defined.

Lemma reachable_style_invariant_witness :
  let w := Demo.world [] in
  let photo := Demo.select_file "/d/photo.png" in
  let song := Demo.select_file "/d/song.mp3" in
  let st := after (after initial_state (on_directory_tree_file_selected w photo))
              (on_directory_tree_file_selected w song) in
  reachable st ∧
  ¬ ("code-view" ∈ viewbox_classes st ∧ "image-view" ∈ viewbox_classes st) ∧
  ("image" ∈ preview_classes st ↔ "image-view" ∈ viewbox_classes st).
Proof.
  intros w photo song st.
  assert (reachable st) as Hr by (do 2 apply reach_select; apply reach_initial).
  split; [exact Hr |].
  destruct (reachable_style_invariant st Hr) as (_ & _ & H1 & H2).
  split; [exact H1 | exact H2].
Defined.

Lemma basename_drops_directories_witness :
  basename (u "/home/me/x.d/README") = u "README" ∧
  extension_of {| path := u "/home/me/x.d/README" |} = extension_of {| path := u "README" |}.
Proof.
  destruct (basename_drops_directories (u "/home/me/x.d") (u "README")) as (H1 & _ & H2 & _).
  - refine (bool_decide_unpack _ _). vm_compute. exact I.
  - split; [exact H1 | exact H2].
Defined.

Lemma extension_exists_iff_dot_witness :
  let makefile := {| path := u "/src/Makefile" |} in
  let dotted := {| path := u "/src/notes." |} in
  extension_of makefile = None ∧
  extension_of dotted = Some [].
Proof.
  intros makefile dotted. split.
  - apply (proj1 (extension_exists_iff_dot makefile)).
    refine (bool_decide_unpack _ _). vm_compute. exact I.
  - apply (proj2 (proj2 (extension_exists_iff_dot dotted)) (u "notes") []).
    + reflexivity.
    + refine (bool_decide_unpack _ _). vm_compute. exact I.
    + by left.
Defined.

Lemma checkbox_markup_keeps_other_text_witness :
  checkbox_markup (u "- [ ]") = u "- [ ]".
Proof.
  apply checkbox_markup_keeps_other_text.
  intros [|[|[|[|[|i]]]]]; try (split; reflexivity).
  change (drop (S (S (S (S (S i))))) (u "- [ ]")) with (drop i ([] : pystr)).
  rewrite drop_nil. split; reflexivity.
Defined.

Lemma plain_rasterizer_reads_even_rows_witness :
  let img' := {| size := (4, 4); pixel := pixel (striped 4 4) |} in
  let rows := map (λ y, map (plain_cell_at img' y) (range 0 4 1)) (range 0 4 2) in
  pixel img' 0 1 = PxNumber ∧
  img_to_string resize_crop (striped 4 4) 4 false = Ok (render_rows rows) ∧
  length rows = 2%nat ∧
  Forall (λ row, length row = 4%nat) rows.
Proof.
  intros img' rows. split; [reflexivity |].
  apply (plain_rasterizer_reads_even_rows resize_crop (striped 4 4) img' 4 4).
  - vm_compute. reflexivity.
  - reflexivity.
  - reflexivity.
  - intros x y _ _ Hy. exists 1, 2, 3. cbn [pixel img' striped].
    by destruct (decide (y `mod` 2 = 0)).
Defined.

Lemma rasterizer_needs_three_bands_witness :
  img_to_string resize_nearest (translucent 160 80) 80 true = Raise ValueError.
Proof.
  destruct (resize_nearest (translucent 160 80) (80, 40)) as [img'|e] eqn:Hr;
    [| by vm_compute in Hr].
  apply (proj1 (rasterizer_needs_three_bands resize_nearest (translucent 160 80) img'
                  80 40 true ltac:(vm_compute; reflexivity) Hr
                  (resize_nearest_size _ _ _ Hr) ltac:(lia) ltac:(lia))
           [10; 20; 30; 255]).
  - vm_compute in Hr. by injection Hr as <-.
  - cbn. lia.
Defined.

Lemma same_width_keeps_height_witness :
  scaled_height 80 45 80 = Ok 46 ∧ scaled_height 1920 1080 1920 = Ok 1080.
Proof.
  split.
  - apply (same_width_keeps_height 80 45); lia.
  - apply (same_width_keeps_height 1920 1080); lia.
Defined.

Lemma zero_width_raises_zero_division_witness :
  img_to_string resize_nearest (solid 0 7 1 2 3) 80 true = Raise ZeroDivisionError.
Proof.
  apply (proj1 (zero_width_raises_zero_division resize_nearest (solid 0 7 1 2 3) 80 true));
    cbn [size solid fst snd]; lia || reflexivity.
Defined.
